(** * BrandMorpher: caption adapter, creative compositor, packaging

    A shallow embedding of the Python sources

      - [adapters/caption_llm_adapter.py]
      - [adapters/image_gen_adapter.py]
      - [generate_creatives.py]
      - [utils.py]
      - [app.py]

    Python [str] values are sequences of Unicode code points, Python [int]
    values are [Z].  Code that may raise returns a [result]; [try]/[except]
    is a match on it.  What the sources obtain from libraries and from the
    outside world (the HTTP endpoint, [repr], the image codecs, the drawing
    primitives, the random generator) is a [Variable] of the section that
    uses it. *)

From Stdlib Require Import String Ascii DecimalString DecimalPos DecimalN.
From Stdlib Require Import List ZArith NArith Lia Bool Arith FinFun.
Import ListNotations.

Set Implicit Arguments.
Set Warnings "-register-all".

(** ** Python strings *)

Module Py.

(** A code point. *)
Definition char := N.
Definition str := list char.

(** An ASCII literal of the source, as code points. *)
Definition lit (s : string) : str :=
  map N_of_ascii (list_ascii_of_string s).

Arguments lit s%_string.

Definition char_eqb : char -> char -> bool := N.eqb.

Fixpoint str_eqb (a b : str) : bool :=
  match a, b with
  | [], [] => true
  | x :: a', y :: b' => char_eqb x y && str_eqb a' b'
  | _, _ => false
  end.

Definition mem (c : char) (cs : str) : bool := existsb (char_eqb c) cs.

(** Code points used by the sources that are not ASCII. *)
Definition EM_DASH : char := 8212%N.   (* U+2014 *)
Definition BULLET : char := 8226%N.    (* U+2022 *)
Definition LF : char := 10%N.
Definition CR : char := 13%N.
Definition TAB : char := 9%N.
Definition SPACE : char := 32%N.

(** [str.isspace] on one code point: the characters that [str.strip()]
    without argument removes. *)
Definition isspace (c : char) : bool :=
  ((9 <=? c) && (c <=? 13) || (28 <=? c) && (c <=? 32)
   || (c =? 133) || (c =? 160) || (c =? 5760)
   || (8192 <=? c) && (c <=? 8202)
   || (c =? 8232) || (c =? 8233) || (c =? 8239) || (c =? 8287)
   || (c =? 12288))%N.

(** The line boundaries of [str.splitlines]. *)
Definition islinebreak (c : char) : bool :=
  ((10 <=? c) && (c <=? 13) || (28 <=? c) && (c <=? 30)
   || (c =? 133) || (c =? 8232) || (c =? 8233))%N.

(** A line: no boundary inside. *)
Definition no_linebreak (l : str) : Prop :=
  forall c, In c l -> islinebreak c = false.

Fixpoint lstrip_by (p : char -> bool) (s : str) : str :=
  match s with
  | c :: s' => if p c then lstrip_by p s' else s
  | [] => []
  end.

Definition rstrip_by (p : char -> bool) (s : str) : str :=
  rev (lstrip_by p (rev s)).

Definition strip_by (p : char -> bool) (s : str) : str :=
  rstrip_by p (lstrip_by p s).

(** [s.strip()] *)
Definition strip (s : str) : str := strip_by isspace s.

(** [s.strip(chars)] *)
Definition strip_chars (chars : str) (s : str) : str :=
  strip_by (fun c => mem c chars) s.

(** [s.splitlines()]: [cur] is the line being read, reversed.  A carriage
    return directly followed by a line feed is one boundary; a last line
    without boundary is kept when it is not empty. *)
Fixpoint splitlines_from (cur : str) (s : str) : list str :=
  match s with
  | [] => match cur with [] => [] | _ => [rev cur] end
  | c :: rest =>
      if char_eqb c CR then
        match rest with
        | c' :: rest' =>
            if char_eqb c' LF then rev cur :: splitlines_from [] rest'
            else rev cur :: splitlines_from [] rest
        | [] => rev cur :: splitlines_from [] rest
        end
      else if islinebreak c then rev cur :: splitlines_from [] rest
      else splitlines_from (c :: cur) rest
  end.

Definition splitlines (s : str) : list str := splitlines_from [] s.

(** [re.split] for a pattern that is one character class: every matching
    character separates two pieces, empty pieces included. *)
Fixpoint split_class_from (p : char -> bool) (cur : str) (s : str) : list str :=
  match s with
  | [] => [rev cur]
  | c :: rest =>
      if p c then rev cur :: split_class_from p [] rest
      else split_class_from p (c :: cur) rest
  end.

Definition re_split_class (p : char -> bool) (s : str) : list str :=
  split_class_from p [] s.

(** [sep.join(parts)] *)
Fixpoint join (sep : str) (parts : list str) : str :=
  match parts with
  | [] => []
  | [p] => p
  | p :: ps => p ++ sep ++ join sep ps
  end.

(** [xs[:n]] for any integer [n]: a negative bound counts from the end. *)
Definition slice_to (A : Type) (xs : list A) (n : Z) : list A :=
  if (n <? 0)%Z
  then firstn (Z.to_nat (Z.max 0 (Z.of_nat (length xs) + n))) xs
  else firstn (Z.to_nat n) xs.

(** [range(n)] *)
Definition range (n : Z) : list Z :=
  map Z.of_nat (seq 0 (Z.to_nat n)).

(** [str(n)] for an integer. *)
Definition str_of_int (n : Z) : str :=
  lit (NilZero.string_of_int (Z.to_int n)).

(** [f"{n:02d}"]: at least two characters, zeros after the sign. *)
Definition format_02d (n : Z) : str :=
  let digits := lit (NilZero.string_of_uint (N.to_uint (Z.abs_N n))) in
  if (n <? 0)%Z
  then lit "-" ++ repeat 48%N (1 - length digits) ++ digits
  else repeat 48%N (2 - length digits) ++ digits.

End Py.

Import Py.

(** ** Exceptions *)

Inductive exn : Type :=
| FileNotFoundError (msg : str)
| RuntimeError (msg : str)
| ZeroDivisionError
| UnidentifiedImageError
| IsADirectoryError (msg : str)
| RequestException (msg : str).

Definition exn_str (e : exn) : str :=
  match e with
  | FileNotFoundError m | RuntimeError m | RequestException m
  | IsADirectoryError m => m
  | ZeroDivisionError => lit "float division by zero"
  | UnidentifiedImageError => lit "cannot identify image file"
  end.

Inductive result (A : Type) : Type :=
| Ok (a : A)
| Raise (e : exn).

Arguments Ok {A} a.
Arguments Raise {A} e.

Definition bind {A B : Type} (r : result A) (k : A -> result B) : result B :=
  match r with
  | Ok a => k a
  | Raise e => Raise e
  end.

Notation "x <- r ;; k" := (bind r (fun x => k))
  (at level 61, r at next level, right associativity).

(** [try: body  except Exception as e: handler(e)] *)
Definition try_except {A : Type} (body : result A) (handler : exn -> result A)
  : result A :=
  match body with
  | Ok a => Ok a
  | Raise e => handler e
  end.

(** ** JSON values, as [resp.json()] returns them *)

Inductive json : Type :=
| JNull
| JBool (b : bool)
| JInt (z : Z)
| JFloat (mantissa exponent : Z)
| JStr (s : str)
| JList (items : list json)
| JDict (fields : list (str * json)).

(** [bool(data)] *)
Definition truthy (d : json) : bool :=
  match d with
  | JNull => false
  | JBool b => b
  | JInt z => negb (z =? 0)%Z
  | JFloat m _ => negb (m =? 0)%Z
  | JStr s => match s with [] => false | _ => true end
  | JList l => match l with [] => false | _ => true end
  | JDict f => match f with [] => false | _ => true end
  end.

(** [d[key]] when [key in d]. *)
Fixpoint dict_get (fields : list (str * json)) (key : str) : option json :=
  match fields with
  | [] => None
  | (k, v) :: rest => if str_eqb k key then Some v else dict_get rest key
  end.

(** [for key in keys: if key in d and isinstance(d[key], str): return d[key]] *)
Fixpoint first_str_field (fields : list (str * json)) (keys : list str)
  : option str :=
  match keys with
  | [] => None
  | key :: keys' =>
      match dict_get fields key with
      | Some (JStr s) => Some s
      | _ => first_str_field fields keys'
      end
  end.

(** [for v in data.values(): if isinstance(v, str) and len(v) > 10: return v] *)
Fixpoint first_long_str (fields : list (str * json)) : option str :=
  match fields with
  | [] => None
  | (_, JStr s) :: rest =>
      if (10 <? length s)%nat then Some s else first_long_str rest
  | _ :: rest => first_long_str rest
  end.

(** [a or b] on optional strings: [None] and the empty string are false. *)
Definition str_truthy (s : option str) : bool :=
  match s with
  | Some (_ :: _) => true
  | _ => false
  end.

Definition py_or (a b : option str) : option str :=
  if str_truthy a then a else b.

(** ** adapters/caption_llm_adapter.py *)

Module CaptionAdapter.

(** The five f-strings of [_template_captions]. *)
Definition samples (brand product : str) : list str :=
  [ brand ++ lit " " ++ product ++ lit " " ++ [EM_DASH] ++ lit " style meets performance.";
    lit "Upgrade your day with the " ++ product ++ lit " from " ++ brand ++ lit ".";
    lit "Feel the difference with " ++ brand ++ lit "'s " ++ product ++ lit ". Shop now!";
    lit "The " ++ product ++ lit " by " ++ brand ++ lit " " ++ [EM_DASH] ++ lit " crafted for comfort.";
    lit "Special offer: grab the " ++ product ++ lit " by " ++ brand ++ lit " today." ].

(** [samples[idx % len(samples)]] *)
Definition sample_at (brand product : str) (idx : Z) : str :=
  nth (Z.to_nat (idx mod Z.of_nat (length (samples brand product))))
      (samples brand product) [].

(** The loop of [_template_captions]: the state is [(out, idx)]. *)
Definition _template_captions (brand product : str) (n : Z) : list str :=
  fst (fold_left
         (fun (st : list str * Z) (_ : Z) =>
            let (out, idx) := st in
            (out ++ [sample_at brand product idx], idx + 1)%Z)
         (range n) ([], 0%Z)).

(** [GEMINI_API_KEY = os.environ.get("GEMINI_API_KEY") or os.environ.get("GOOGLE_API_KEY")] *)
Definition GEMINI_API_KEY (environ : str -> option str) : option str :=
  py_or (environ (lit "GEMINI_API_KEY")) (environ (lit "GOOGLE_API_KEY")).

Record GeminiCaptionAdapter : Type := {
  api_key : option str;
  url : str
}.

(** [__init__(self, api_key=None)] *)
Definition __init__ (environ : str -> option str) (key : option str)
  : GeminiCaptionAdapter :=
  {| api_key := py_or key (GEMINI_API_KEY environ);
     url := lit "https://generativelanguage.googleapis.com/v1/models/text-bison-001:generate" |}.

(** The JSON body that [_call_rest] posts. *)
Record payload : Type := {
  prompt_text : str;
  maxOutputTokens : Z;
  temperature : Z * Z     (* 0.8 as mantissa and decimal exponent *)
}.

Section Remote.

(** [requests.post(url, params={"key": key}, json=payload, timeout=20)]
    followed by [raise_for_status()] and [json()]: the answer of the
    endpoint, or the exception one of the three raises (a timeout is one). *)
Variable http_post : str -> str -> payload -> result json.

(** [str(data)] for a value that is not a string. *)
Variable repr : json -> str.

Definition py_str (d : json) : str :=
  match d with
  | JStr s => s
  | _ => repr d
  end.

Definition _call_rest (self : GeminiCaptionAdapter) (prompt : str)
  (max_tokens : Z) : result json :=
  match api_key self with
  | Some ((_ :: _) as key) =>
      try_except
        (http_post (url self) key
           {| prompt_text := prompt;
              maxOutputTokens := max_tokens;
              temperature := (8, -1)%Z |})
        (fun e => Raise (RuntimeError
                           (lit "Generative REST call failed: " ++ exn_str e)))
  | _ => Raise (RuntimeError (lit "No GEMINI_API_KEY available"))
  end.

(** [return x] at the first of several attempts that finds something. *)
Definition or_else {A : Type} (a : option A) (b : option A) : option A :=
  match a with
  | Some x => Some x
  | None => b
  end.

Definition _extract_text_from_response (data : json) : option str :=
  if negb (truthy data) then None
  else
    match data with
    | JDict fields =>
        (* 1) candidates list *)
        or_else
          match dict_get fields (lit "candidates") with
          | Some (JList (first :: _)) =>
              match first with
              | JDict ffields =>
                  first_str_field ffields
                    [lit "content"; lit "output"; lit "text"]
              | JStr s => Some s
              | _ => None
              end
          | _ => None
          end
        (* 2) direct 'output' or 'text' field *)
        (or_else
           (first_str_field fields [lit "output"; lit "text"; lit "content"])
        (* 3) a string among the values *)
        (or_else (first_long_str fields)
        (* last resort *)
        (Some (py_str data))))
    | _ => Some (py_str data)
    end.

(** The characters of [l.strip(" -•\n\r\t")]. *)
Definition bullet_chars : str := [SPACE; 45%N; BULLET; LF; CR; TAB].

(** The class of [re.split(r'[\\.!;\\n]', text)]: in the raw string the two
    characters [\\] are an escaped backslash, so the class holds the
    backslash, the full stop, the exclamation mark, the semicolon and the
    letter n. *)
Definition sentence_class (c : char) : bool :=
  mem c [92%N; 46%N; 33%N; 59%N; 92%N; 110%N].

Definition nonblank (l : str) : bool :=
  match strip l with [] => false | _ => true end.

(** [[l.strip(" -•\n\r\t") for l in text.splitlines() if l.strip()]] *)
Definition caption_lines (text : str) : list str :=
  map (strip_chars bullet_chars) (filter nonblank (splitlines text)).

(** [[s.strip() for s in re.split(r'[\\.!;\\n]', text) if s.strip()]] *)
Definition sentence_pieces (text : str) : list str :=
  map strip (filter nonblank (re_split_class sentence_class text)).

Definition prompt_of (brand product : str) (n : Z) : str :=
  lit "You are a senior performance marketer and copywriter. "
  ++ lit "Generate " ++ str_of_int n
  ++ lit " short, punchy marketing captions (4-12 words) for this product. "
  ++ lit "Brand: " ++ brand ++ lit ". Product: " ++ product
  ++ lit ". Use active voice, include a short CTA, and return each caption on a new line.".

Definition generate_captions (self : GeminiCaptionAdapter)
  (brand product : str) (n : Z) : result (list str) :=
  if negb (str_truthy (api_key self)) then
    Ok (_template_captions brand product n)
  else
    let prompt := prompt_of brand product n in
    try_except
      (data <- _call_rest self prompt 200 ;;
       match _extract_text_from_response data with
       | None | Some [] => Ok (_template_captions brand product n)
       | Some text =>
           let lines := caption_lines text in
           let lines :=
             match lines with
             | [] => sentence_pieces text
             | _ => lines
             end in
           let out := slice_to lines n in
           let out :=
             if (Z.of_nat (length out) <? n)%Z
             then out ++ _template_captions brand product
                           (n - Z.of_nat (length out))
             else out in
           Ok (slice_to out n)
       end)
      (fun _ => Ok (_template_captions brand product n)).

(** The three ways in which the remote call gives nothing to work with. *)
Definition no_usable_text (self : GeminiCaptionAdapter)
  (brand product : str) (n : Z) : Prop :=
  str_truthy (api_key self) = false
  \/ (exists e, _call_rest self (prompt_of brand product n) 200 = Raise e)
  \/ (exists data,
        _call_rest self (prompt_of brand product n) 200 = Ok data
        /\ (_extract_text_from_response data = None
            \/ _extract_text_from_response data = Some [])).

End Remote.

(** The template cycle read from index [start] on, [count] entries. *)
Definition template_cycle_from (brand product : str) (start : Z) (count : Z)
  : list str :=
  map (fun i => sample_at brand product (start + i)) (range count).

(** C3 as the spec states it: after [k < n] extracted lines the padding
    goes on in the cycle at index [k] instead of starting again at the
    first template. *)
Definition padding_continues_claim : Prop :=
  forall (http_post : str -> str -> payload -> result json)
    (repr : json -> str) (self : GeminiCaptionAdapter)
    (brand product : str) (n : Z) (data : json) (text : str),
  str_truthy (api_key self) = true ->
  _call_rest http_post self (prompt_of brand product n) 200 = Ok data ->
  _extract_text_from_response repr data = Some text ->
  text <> [] ->
  let k := Z.of_nat (length (caption_lines text)) in
  (k < n)%Z ->
  generate_captions http_post repr self brand product n
  = Ok (caption_lines text ++ template_cycle_from brand product k (n - k)).

End CaptionAdapter.

(** ** Images

    What [generate_creatives.py] uses of a [PIL.Image]: its mode, its size
    and its pixels.  A pixel is the list of its band values, each in
    [0..255]; sizes and coordinates are natural numbers.  The modes are
    the three the program meets (uploads are PNG or JPEG files and the
    compositor converts them to RGBA). *)

Module PIL.

Inductive mode : Type := L | RGB | RGBA.

Definition mode_eqb (a b : mode) : bool :=
  match a, b with
  | L, L | RGB, RGB | RGBA, RGBA => true
  | _, _ => false
  end.

Record Image : Type := {
  mode_of : mode;
  width : nat;
  height : nat;
  getpixel : nat -> nat -> list Z
}.

(** A box [(left, upper, right, lower)]. *)
Definition box : Type := nat * nat * nat * nat.

(** [img.split()[-1]]: the last band, as an image of mode L. *)
Definition last_band (img : Image) : Image :=
  {| mode_of := L; width := width img; height := height img;
     getpixel := fun x y => [last (getpixel img x y) 0%Z] |}.

(** The luma transform of [convert("L")] on a colour pixel: ITU-R 601-2 in
    16-bit fixed point. *)
Definition luma (r g b : Z) : Z :=
  Z.shiftr (r * 19595 + g * 38470 + b * 7471 + 32768) 16.

(** [img.convert("L")] *)
Definition convert_L (img : Image) : Image :=
  {| mode_of := L; width := width img; height := height img;
     getpixel := fun x y =>
       match mode_of img, getpixel img x y with
       | L, p => p
       | _, r :: g :: b :: _ => [luma r g b]
       | _, p => p
       end |}.

(** [img.point(f)]: [f] on every band value. *)
Definition point (f : Z -> Z) (img : Image) : Image :=
  {| mode_of := mode_of img; width := width img; height := height img;
     getpixel := fun x y => map f (getpixel img x y) |}.

(** The bounding box of the points of a [w] by [h] grid where [f] holds:
    the first and last column and the first and last row that hold one. *)
Definition bbox_of (w h : nat) (f : nat -> nat -> bool) : option box :=
  match filter (fun x => existsb (fun y => f x y) (seq 0 h)) (seq 0 w),
        filter (fun y => existsb (fun x => f x y) (seq 0 w)) (seq 0 h) with
  | x0 :: xs, y0 :: ys => Some (x0, y0, S (last xs x0), S (last ys y0))
  | _, _ => None
  end.

Definition nonzero (p : list Z) : bool :=
  existsb (fun v => negb (v =? 0)%Z) p.

(** [img.getbbox()]: the bounding box of the non-zero pixels, [None] when
    there is none. *)
Definition getbbox (img : Image) : option box :=
  bbox_of (width img) (height img) (fun x y => nonzero (getpixel img x y)).

(** [img.crop((left, upper, right, lower))], for a box inside the image. *)
Definition crop (img : Image) (b : box) : Image :=
  let '(left_, upper, right_, lower) := b in
  {| mode_of := mode_of img;
     width := right_ - left_;
     height := lower - upper;
     getpixel := fun x y => getpixel img (left_ + x) (upper + y) |}.

End PIL.

Import PIL.

(** ** generate_creatives.py: the subject crop *)

Module Autocrop.

(** [lambda p: 255 if p < (255 - threshold) else 0] *)
Definition near_white_mask (threshold : Z) (p : Z) : Z :=
  if (p <? 255 - threshold)%Z then 255%Z else 0%Z.

(** The fallback of [_autocrop_to_subject]: the centred square. *)
Definition center_box (img : Image) : box :=
  let w := width img in
  let h := height img in
  let min_side := Nat.min w h in
  let left_ := (w - min_side) / 2 in
  let top := (h - min_side) / 2 in
  (left_, top, left_ + min_side, top + min_side).

(** The part of [_autocrop_to_subject] after the RGBA test. *)
Definition luminance_crop (img : Image) (threshold : Z) : Image :=
  let gray := convert_L img in
  let bw := point (near_white_mask threshold) gray in
  match getbbox bw with
  | Some bbox => crop img bbox
  | None => crop img (center_box img)
  end.

Definition _autocrop_to_subject (img : Image) (threshold : Z) : Image :=
  match mode_of img with
  | RGBA =>
      let alpha := last_band img in
      match getbbox alpha with
      | Some bbox => crop img bbox
      | None => luminance_crop img threshold
      end
  | _ => luminance_crop img threshold
  end.




(** Pixel [(x, y)] is not transparent. *)
Definition opaque_at (img : Image) (x y : nat) : bool :=
  negb (last (getpixel img x y) 0 =? 0)%Z.

(** Pixel [(x, y)] is darker than white minus the threshold. *)
Definition subject_at (img : Image) (threshold : Z) (x y : nat) : bool :=
  nonzero (getpixel (point (near_white_mask threshold) (convert_L img)) x y).

(** A box encloses the points of [f] and touches one on each side. *)
Definition tight_box (w h : nat) (f : nat -> nat -> bool) (b : box) : Prop :=
  let '(left_, upper, right_, lower) := b in
  left_ < right_ <= w /\ upper < lower <= h
  /\ (forall x y, x < w -> y < h -> f x y = true ->
        left_ <= x < right_ /\ upper <= y < lower)
  /\ (exists y, y < h /\ f left_ y = true)
  /\ (exists y, y < h /\ f (right_ - 1) y = true)
  /\ (exists x, x < w /\ f x upper = true)
  /\ (exists x, x < w /\ f x (lower - 1) = true).

End Autocrop.

(** ** Files

    A path is the list of the components of a resolved path; the store
    lists the nodes in the order in which a directory listing shows them.
    A text file is its text (written as UTF-8), a zip archive the list of
    its members.  What the operating system may refuse for reasons outside
    the program (permissions, a full disk, a directory standing where a
    file is to be written, or a file where a directory is to be made) is
    not modelled: a write goes through. *)

Module FS.

Definition path : Type := list str.

(** A member of an archive: its name and its data, [None] for a directory. *)
Inductive content : Type :=
| Text (s : str)
| Binary (data : list Byte.byte)
| Archive (members : list (str * option content)).

Inductive node : Type :=
| File (c : content)
| Dir.

Definition fs : Type := list (path * node).

Fixpoint path_eqb (a b : path) : bool :=
  match a, b with
  | [], [] => true
  | x :: a', y :: b' => str_eqb x y && path_eqb a' b'
  | _, _ => false
  end.

Fixpoint lookup (d : fs) (p : path) : option node :=
  match d with
  | [] => None
  | (q, n) :: rest => if path_eqb q p then Some n else lookup rest p
  end.

(** The node at [p] is replaced where it stands, a new one comes last. *)
Fixpoint write (d : fs) (p : path) (n : node) : fs :=
  match d with
  | [] => [(p, n)]
  | (q, m) :: rest =>
      if path_eqb q p then (q, n) :: rest else (q, m) :: write rest p n
  end.

(** A list of files written one after the other. *)
Definition apply_writes (d : fs) (l : list (path * content)) : fs :=
  fold_left (fun acc pc => write acc (fst pc) (File (snd pc))) l d.

(** [Path(p).exists()] *)
Definition exists_ (d : fs) (p : path) : bool :=
  match lookup d p with Some _ => true | None => false end.

(** [p.name] and [p.parent] *)
Definition name (p : path) : str := last p [].
Definition parent (p : path) : path := removelast p.

(** [d / name] *)
Definition child (d : path) (nm : str) : path := d ++ [nm].

Definition is_child_of (folder : path) (p : path) : bool :=
  match p with
  | [] => false
  | _ => path_eqb (parent p) folder
  end.

(** [folder.iterdir()]: the immediate entries, files and directories. *)
Definition iterdir (d : fs) (folder : path) : list path :=
  filter (is_child_of folder) (map fst d).

(** [Path(p).mkdir(parents=True, exist_ok=True)] *)
Definition mkdir_parents (d : fs) (p : path) : fs :=
  fold_left
    (fun acc k =>
       let q := firstn k p in
       if exists_ acc q then acc else write acc q Dir)
    (seq 1 (length p)) d.

(** The order of [sorted] on strings and on paths: by code point, then
    component by component. *)
Fixpoint str_ltb (a b : str) : bool :=
  match a, b with
  | _, [] => false
  | [], _ :: _ => true
  | x :: a', y :: b' => (x <? y)%N || (x =? y)%N && str_ltb a' b'
  end.

Fixpoint path_ltb (a b : path) : bool :=
  match a, b with
  | _, [] => false
  | [], _ :: _ => true
  | x :: a', y :: b' => str_ltb x y || str_eqb x y && path_ltb a' b'
  end.

Fixpoint insert_sorted (p : path) (l : list path) : list path :=
  match l with
  | [] => [p]
  | q :: l' => if path_ltb p q then p :: l else q :: insert_sorted p l'
  end.

(** [sorted(paths)] *)
Definition sorted (l : list path) : list path :=
  fold_right insert_sorted [] l.

(** [s.rfind(".")], counted from the start; [None] for -1. *)
Fixpoint rfind_dot (s : str) : option nat :=
  match s with
  | [] => None
  | c :: s' =>
      match rfind_dot s' with
      | Some i => Some (S i)
      | None => if char_eqb c 46%N then Some 0 else None
      end
  end.

(** [p.suffix]: from the last dot of the name on, unless that dot is the
    first or the last character. *)
Definition suffix (p : path) : str :=
  let nm := name p in
  match rfind_dot nm with
  | Some i =>
      if (0 <? i) && (i <? length nm - 1) then skipn i nm else []
  | None => []
  end.

(** [s.lower()] on the letters A to Z. *)
Definition lower (s : str) : str :=
  map (fun c => if (65 <=? c)%N && (c <=? 90)%N then (c + 32)%N else c) s.

End FS.

Import FS.

(** ** utils.py *)

Module Utils.

(** [z.write(f, arcname=f.name)]: a file gives a member with its data, a
    directory a member named with a trailing slash and without data. *)
Definition member_of (d : fs) (f : path) : str * option content :=
  match lookup d f with
  | Some (File c) => (name f, Some c)
  | _ => (name f ++ lit "/", None)
  end.

Definition members_at (d : fs) (zip_path : path) : list (str * option content) :=
  match lookup d zip_path with
  | Some (File (Archive ms)) => ms
  | _ => []
  end.

(** [create_zip(folder, zip_path)].  Opening the archive for writing
    creates it, or empties it, before the folder is listed; every
    [z.write] reads the entry as it is on disk at that moment. *)
Definition create_zip (d : fs) (folder zip_path : path) : result (path * fs) :=
  let opened := write d zip_path (File (Archive [])) in
  match lookup opened folder with
  | Some Dir =>
      Ok (zip_path,
          fold_left
            (fun acc f =>
               write acc zip_path
                 (File (Archive (members_at acc zip_path ++ [member_of acc f]))))
            (iterdir opened folder) opened)
  | _ => Raise (FileNotFoundError (join (lit "/") folder))
  end.




End Utils.

(** ** generate_creatives.py: the compositor *)

Module Compositor.

(** [img.convert("RGBA")] *)
Definition convert_RGBA (img : Image) : Image :=
  {| mode_of := RGBA; width := width img; height := height img;
     getpixel := fun x y =>
       match mode_of img, getpixel img x y with
       | L, v :: _ => [v; v; v; 255%Z]
       | RGB, r :: g :: b :: _ => [r; g; b; 255%Z]
       | _, p => p
       end |}.

(** Keyword arguments: [None] where the caller leaves the default. *)
Record kwargs : Type := {
  out_dir : option path;
  n : option Z;
  size : option Z;
  brand_name : option str;
  product_name : option str
}.

Definition or_default {A : Type} (o : option A) (d : A) : A :=
  match o with Some a => a | None => d end.

(** What is drawn at random for one creative. *)
Record cosmetics : Type := {
  base_a : Z * Z * Z;
  base_b : Z * Z * Z;
  centre_jitter : Z * Z;
  place_jitter : Z * Z;
  headline : str;
  sub : str;
  badge_text : option str
}.

(** The five f-strings of [generate_caption]. *)
Definition caption_templates (brand product : str) : list str :=
  [ brand ++ lit " " ++ product ++ lit " " ++ [EM_DASH] ++ lit " style meets performance.";
    lit "Upgrade your day with the " ++ product ++ lit " from " ++ brand ++ lit ".";
    lit "Feel the difference with " ++ brand ++ lit "'s " ++ product ++ lit ". Shop now!";
    lit "The " ++ product ++ lit " by " ++ brand ++ lit " " ++ [EM_DASH] ++ lit " crafted for comfort and quality.";
    lit "Special offer: grab the " ++ product ++ lit " by " ++ brand ++ lit " today." ].

Definition headline_templates (brand_name product_name : str) : list str :=
  [ lit "Introducing " ++ product_name;
    brand_name ++ lit " presents " ++ product_name;
    product_name ++ lit " " ++ [EM_DASH] ++ lit " Now available";
    lit "Meet the new " ++ product_name ].

Definition sub_templates (brand_name : str) : list str :=
  [ lit "Shop now " ++ [BULLET] ++ lit " " ++ brand_name;
    lit "Limited offer " ++ [BULLET] ++ lit " " ++ brand_name;
    lit "Free shipping " ++ [BULLET] ++ lit " " ++ brand_name ].

Definition badge_texts : list str :=
  [ lit "20% OFF"; lit "NEW"; lit "BESTSELLER"; lit "LIMITED" ].

Definition base_colours : list (Z * Z * Z) :=
  [ (250, 250, 250); (245, 248, 255); (255, 250, 245); (250, 255, 250) ]%Z.

(** [f"creative_{i+1:02d}"] *)
Definition filename_base (i : Z) : str :=
  lit "creative_" ++ format_02d (i + 1).

Section Run.

(** The state of the [random] module. *)
Variable rng : Type.
(** [random._randbelow(k)]: an integer in [0, k). *)
Variable randbelow : Z -> rng -> Z * rng.
(** [random.random()], as the numerator of a fraction over [2^53]. *)
Variable random53 : rng -> Z * rng.
(** [Image.open(path)] on the bytes of a file: [None] when Pillow cannot
    identify or decode them. *)
Variable decode : list Byte.byte -> option Image.
(** [img.save(path, format="PNG", optimize=True)] and
    [img.save(path, quality=q, optimize=True)] for a [.jpg] path. *)
Variable save_png : Image -> list Byte.byte.
Variable save_jpeg : Z -> Image -> list Byte.byte.
(** The drawing of one creative, from the gradient to
    [canvas.convert("RGB")], as a function of the logo, the cropped
    product, the canvas size, the two names and what was drawn at random.
    It may raise: Pillow refuses some sizes, and the gradient itself
    divides by [size - 1]. *)
Variable render : Image -> Image -> Z -> str -> str -> cosmetics -> result Image.

(** The world a run acts on: the generator, the files, and the log of the
    files written, oldest first. *)
Record world : Type := {
  gen : rng;
  disk : fs;
  written : list (path * content)
}.

Definition run (A : Type) : Type := world -> result (A * world).

Definition ret {A : Type} (a : A) : run A := fun w => Ok (a, w).

Definition raise {A : Type} (e : exn) : run A := fun _ => Raise e.

Definition and_then {A B : Type} (m : run A) (k : A -> run B) : run B :=
  fun w =>
    match m w with
    | Ok (a, w') => k a w'
    | Raise e => Raise e
    end.

Notation "x <~ m ;; k" := (and_then m (fun x => k))
  (at level 61, m at next level, right associativity).

Definition draw {A : Type} (f : rng -> A * rng) : run A :=
  fun w =>
    let (a, g) := f (gen w) in
    Ok (a, {| gen := g; disk := disk w; written := written w |}).

Definition on_disk (f : fs -> fs) : run unit :=
  fun w => Ok (tt, {| gen := gen w; disk := f (disk w); written := written w |}).

Definition read_disk : run fs := fun w => Ok (disk w, w).

(** Writing a file: on disk, and in the log. *)
Definition save (p : path) (c : content) : run unit :=
  fun w =>
    Ok (tt, {| gen := gen w;
               disk := write (disk w) p (File c);
               written := written w ++ [(p, c)] |}).

(** [for x in xs: acc = body(x, acc)] *)
Fixpoint for_each {A : Type} (xs : list Z) (body : Z -> A -> run A) (acc : A)
  : run A :=
  match xs with
  | [] => ret acc
  | x :: xs' => acc' <~ body x acc ;; for_each xs' body acc'
  end.

(** [random.randint(a, b)] and [random.choice(seq)] *)
Definition randint (a b : Z) : run Z :=
  k <~ draw (randbelow (b - a + 1)) ;; ret (a + k)%Z.

Definition choice {A : Type} (seq : list A) (default : A) : run A :=
  k <~ draw (randbelow (Z.of_nat (length seq))) ;;
  ret (nth (Z.to_nat k) seq default).

Definition generate_caption (brand product : str) : run str :=
  choice (caption_templates brand product) [].

Definition ensure_dir (p : path) : run unit :=
  on_disk (fun d => mkdir_parents d p).

(** [Image.open(path).convert("RGBA")] *)
Definition open_rgba (p : path) : run Image :=
  d <~ read_disk ;;
  match lookup d p with
  | Some (File (Binary data)) =>
      match decode data with
      | Some img => ret (convert_RGBA img)
      | None => raise UnidentifiedImageError
      end
  | Some (File _) => raise UnidentifiedImageError
  | Some Dir => raise (IsADirectoryError (join (lit "/") p))
  | None => raise (FileNotFoundError (join (lit "/") p))
  end.

(** What one turn of the loop draws at random before the files are saved,
    in the order of the source. *)
Definition draw_cosmetics (brand_name product_name : str) : run cosmetics :=
  a <~ choice base_colours (0, 0, 0)%Z ;;
  let '(a0, a1, a2) := a in
  d0 <~ randint (-18) 30 ;;
  d1 <~ randint (-18) 30 ;;
  d2 <~ randint (-18) 30 ;;
  cx <~ randint (-60) 60 ;;
  cy <~ randint (-40) 40 ;;
  jx <~ randint (-20) 20 ;;
  jy <~ randint (-20) 20 ;;
  hl <~ choice (headline_templates brand_name product_name) [] ;;
  sb <~ choice (sub_templates brand_name) [] ;;
  r <~ draw random53 ;;
  badge <~ (if (r <? 2 ^ 52)%Z
            then (t <~ choice badge_texts [] ;; ret (Some t))
            else ret None) ;;
  ret {| base_a := a;
         base_b := (Z.min 255 (a0 + d0), Z.min 255 (a1 + d1), Z.min 255 (a2 + d2));
         centre_jitter := (cx, cy);
         place_jitter := (jx, jy);
         headline := hl;
         sub := sb;
         badge_text := badge |}.

(** One turn of the loop of [generate_variations_improved]. *)
Definition creative (logo product : Image) (dir : path) (size : Z)
  (brand_name product_name : str) (i : Z) (captions : list str)
  : run (list str) :=
  look <~ draw_cosmetics brand_name product_name ;;
  let prod_cropped := Autocrop._autocrop_to_subject product 10 in
  match render logo prod_cropped size brand_name product_name look with
  | Raise e => raise e
  | Ok final =>
      let out_path_png := child dir (filename_base i ++ lit ".png") in
      let out_path_jpg := child dir (filename_base i ++ lit ".jpg") in
      _ <~ save out_path_png (Binary (save_png final)) ;;
      _ <~ save out_path_jpg (Binary (save_jpeg 94 final)) ;;
      caption <~ generate_caption brand_name product_name ;;
      ret (captions ++ [filename_base i ++ lit ".jpg" ++ [TAB] ++ caption])
  end.

(** The working directory, for the default [out_dir="output"]. *)
Variable cwd : path.

Definition generate_variations_improved (logo_path product_path : path)
  (kw : kwargs) : run path :=
  let out_dir := or_default (out_dir kw) (child cwd (lit "output")) in
  let n := or_default (n kw) 12%Z in
  let size := or_default (size kw) 1200%Z in
  let brand_name := or_default (brand_name kw) (lit "Brand") in
  let product_name := or_default (product_name kw) (lit "Product") in
  _ <~ ensure_dir out_dir ;;
  d <~ read_disk ;;
  if negb (exists_ d logo_path) then
    raise (FileNotFoundError
             (lit "Logo not found: " ++ join (lit "/") logo_path))
  else if negb (exists_ d product_path) then
    raise (FileNotFoundError
             (lit "Product image not found: " ++ join (lit "/") product_path))
  else
    logo <~ open_rgba logo_path ;;
    product <~ open_rgba product_path ;;
    captions <~ for_each (range n)
                  (creative logo product out_dir size brand_name product_name)
                  [] ;;
    _ <~ save (child out_dir (lit "captions.txt")) (Text (join [LF] captions)) ;;
    ret out_dir.

(** The alias: its own defaults, then the call with every keyword given. *)
Definition generate_variations (logo_path product_path : path)
  (kw : kwargs) : run path :=
  let out_dir := or_default (out_dir kw) (child cwd (lit "output")) in
  let n := or_default (n kw) 12%Z in
  let size := or_default (size kw) 1200%Z in
  let brand_name := or_default (brand_name kw) (lit "Brand") in
  let product_name := or_default (product_name kw) (lit "Product") in
  generate_variations_improved logo_path product_path
    {| out_dir := Some out_dir; n := Some n; size := Some size;
       brand_name := Some brand_name; product_name := Some product_name |}.

(** A step that only draws at random: it returns, and leaves the files
    and the log alone. *)
Definition only_draws {A : Type} (m : run A) (good : A -> Prop) : Prop :=
  forall w, exists a w',
    m w = Ok (a, w') /\ good a
    /\ disk w' = disk w /\ written w' = written w.


(** The line of creative [i] in [captions.txt]. *)
Definition caption_entry (i : Z) (caption : str) : str :=
  filename_base i ++ lit ".jpg" ++ [TAB] ++ caption.

(** The lines of a text file: the text cut at every line feed. *)
Definition file_lines (text : str) : list str :=
  re_split_class (char_eqb LF) text.




(** [_randbelow(k)] is in [0, k). *)
Definition randbelow_in_range : Prop :=
  forall k g, (0 < k)%Z -> (0 <= fst (randbelow k g) < k)%Z.

End Run.



End Compositor.

(** ** Stand-ins

    Small instances of what the sections leave open, to run the
    definitions on. *)

Module Demo.
Import CaptionAdapter Compositor.

Definition white : Image :=
  {| mode_of := RGB; width := 1; height := 1;
     getpixel := fun _ _ => [255; 255; 255]%Z |}.

(** A generator that counts. *)
Definition randbelow (k : Z) (g : nat) : Z * nat :=
  ((Z.of_nat g mod k)%Z, S g).

Definition random53 (g : nat) : Z * nat :=
  ((if Nat.even g then 0 else 2 ^ 52)%Z, S g).

Definition decode (data : list Byte.byte) : option Image :=
  match data with
  | [] => None
  | _ => Some white
  end.

Definition save_png (_ : Image) : list Byte.byte := [Byte.x50].
Definition save_jpeg (_ : Z) (_ : Image) : list Byte.byte := [Byte.x4a].

Definition render (_ _ : Image) (_ : Z) (_ _ : str) (_ : cosmetics)
  : result Image := Ok white.

Definition cwd : path := [lit "srv"].

Definition logo_path : path := [lit "in"; lit "logo.png"].
Definition product_path : path := [lit "in"; lit "product.png"].

Definition disk0 : fs :=
  [ ([lit "in"], Dir);
    (logo_path, File (Binary [Byte.x01]));
    (product_path, File (Binary [Byte.x02])) ].

Definition world0 : world nat :=
  {| gen := 0; disk := disk0; written := [] |}.

Definition no_path : path := [lit "in"; lit "none.png"].




Definition kw (count : Z) (brand product : str) : kwargs :=
  {| out_dir := Some [lit "out"]; n := Some count; size := None;
     brand_name := Some brand; product_name := Some product |}.


(** An endpoint that answers with one caption. *)
Definition one_caption (_ _ : str) (_ : payload) : result json :=
  Ok (JDict [(lit "output", JStr (lit "Buy now"))]).


(** An endpoint that answers one prompt only. *)
Definition picky (u k : str) (p : payload) : result json :=
  if str_eqb (prompt_text p) (prompt_of (lit "Acme") (lit "Boots") 2)
  then one_caption u k p
  else Raise (RequestException (lit "503 Server Error")).

(** An endpoint that is down. *)
Definition down (_ _ : str) (_ : payload) : result json :=
  Raise (RequestException (lit "timed out")).

Definition repr (_ : json) : str := lit "{}".

Definition with_key : GeminiCaptionAdapter :=
  __init__ (fun _ => None) (Some (lit "k")).

Definition without_key : GeminiCaptionAdapter :=
  __init__ (fun _ => None) None.





(** Three by three, opaque in the middle only. *)
Definition dot_3x3 : Image :=
  {| mode_of := RGBA; width := 3; height := 3;
     getpixel := fun x y =>
       if (x =? 1) && (y =? 1) then [10; 10; 10; 255]%Z
       else [0; 0; 0; 0]%Z |}.

End Demo.

(** ** app.py *)

Module App.
Import CaptionAdapter Compositor.

(** An uploaded file: the name the client gave, and the bytes. *)
Record upload : Type := {
  filename : str;
  data : list Byte.byte
}.

Record request : Type := {
  form_brand : option str;
  form_product : option str;
  file_logo : option upload;
  file_product : option upload
}.

Inductive response : Type :=
| Redirect (flash : str)
| SendFile (zip_path : path) (download_name : str).

(** [bool(file)] for [request.files.get(...)]: an upload with a name. *)
Definition present (u : option upload) : bool :=
  match u with
  | Some {| filename := _ :: _ |} => true
  | _ => false
  end.

Definition ALLOWED_EXT : list str := [lit "png"; lit "jpg"; lit "jpeg"].

(** [filename.rsplit(".", 1)[1]] when the name has a dot. *)
Definition after_last_dot (filename : str) : option str :=
  match rfind_dot filename with
  | Some i => Some (skipn (S i) filename)
  | None => None
  end.

Definition allowed (filename : str) : bool :=
  match after_last_dot filename with
  | Some ext => existsb (str_eqb (lower ext)) ALLOWED_EXT
  | None => false
  end.

(** [os.environ.get(name, "false").lower() == "true"] *)
Definition flag (environ : str -> option str) (name : str) : bool :=
  str_eqb (lower (or_default (environ name) (lit "false"))) (lit "true").

(** [s.replace(" ", "_")] *)
Definition spaces_to_underscores (s : str) : str :=
  map (fun c => if char_eqb c SPACE then 95%N else c) s.

Definition is_image_file (p : path) : bool :=
  existsb (str_eqb (lower (suffix p))) [lit ".jpg"; lit ".jpeg"; lit ".png"].

(** [for idx, img in enumerate(img_files[:len(captions_list)]):
       out_lines.append(f"{img.name}\t{captions_list[idx]}")] *)
Fixpoint caption_lines_for (img_files : list path) (captions_list : list str)
  : list str :=
  match img_files, captions_list with
  | img :: imgs, c :: cs => (name img ++ [TAB] ++ c) :: caption_lines_for imgs cs
  | _, _ => []
  end.

Section Generate.

Variable rng : Type.
Variable randbelow : Z -> rng -> Z * rng.
Variable random53 : rng -> Z * rng.
Variable decode : list Byte.byte -> option Image.
Variable save_png : Image -> list Byte.byte.
Variable save_jpeg : Z -> Image -> list Byte.byte.
Variable render : Image -> Image -> Z -> str -> str -> cosmetics -> result Image.
Variable cwd : path.
Variable http_post : str -> str -> payload -> result json.
Variable repr : json -> str.
(** [werkzeug.utils.secure_filename] *)
Variable secure_filename : str -> str.
(** [os.environ], after [load_dotenv()]. *)
Variable environ : str -> option str.
(** [Path(__file__).parent] *)
Variable BASE_DIR : path.
(** What the image step leaves on disk; it is wrapped in a [try] that
    swallows every exception, and its result is only printed. *)
Variable image_step : str -> path -> fs -> fs.

Local Abbreviation world := (world rng).
Local Abbreviation run := (run rng).

Notation "x <~ m ;; k" := (and_then m (fun x => k))
  (at level 61, m at next level, right associativity).

Definition RUNS : path := child BASE_DIR (lit "runs").

(** The overwrite of [captions.txt] by the adapter's captions. *)
Definition overwrite_captions (run_dir : path) (captions_list : list str)
  : run unit :=
  d <~ (@read_disk rng) ;;
  let img_files := sorted (filter is_image_file (iterdir d run_dir)) in
  let out_lines := caption_lines_for img_files captions_list in
  save (child run_dir (lit "captions.txt")) (Text (join [LF] out_lines)).

(** The route [/generate]; [run_id] is what [uuid.uuid4().hex] gives.  A
    failed request answers with a redirect and the world is as it was
    found, as far as this model goes. *)
Definition generate (req : request) (run_id : str) (w : world)
  : response * world :=
  let brand := or_default (form_brand req) (lit "Brand") in
  let product := or_default (form_product req) (lit "Product") in
  match file_logo req, file_product req with
  | Some logo_file, Some product_file =>
      if negb (present (file_logo req) && present (file_product req)) then
        (Redirect (lit "Please upload both logo and product images."), w)
      else if negb (allowed (filename logo_file)
                    && allowed (filename product_file)) then
        (Redirect (lit "Allowed file types: png, jpg, jpeg"), w)
      else
        let run_dir := child RUNS run_id in
        let logo_path :=
          child run_dir (lit "logo_" ++ secure_filename (filename logo_file)) in
        let product_path :=
          child run_dir
            (lit "product_" ++ secure_filename (filename product_file)) in
        let use_image_api := flag environ (lit "USE_IMAGE_API") in
        let use_llm := flag environ (lit "USE_LLM") in
        let body : run response :=
          _ <~ @on_disk rng (fun d => mkdir_parents d run_dir) ;;
          _ <~ save logo_path (Binary (data logo_file)) ;;
          _ <~ save product_path (Binary (data product_file)) ;;
          _ <~ (if use_image_api
                then @on_disk rng
                       (image_step
                          (lit "Product photo of " ++ product ++ lit " by " ++ brand)
                          (child run_dir (lit "gemini_images")))
                else ret tt) ;;
          let captions_list :=
            if use_llm then
              match generate_captions http_post repr (__init__ environ None)
                      brand product 12 with
              | Ok l => Some l
              | Raise _ => None
              end
            else None in
          _ <~ generate_variations randbelow random53 decode save_png
                 save_jpeg render cwd logo_path product_path
                 {| out_dir := Some run_dir; n := Some 12%Z;
                    size := Some 1200%Z; brand_name := Some brand;
                    product_name := Some product |} ;;
          _ <~ match captions_list with
               | Some ((_ :: _) as l) => overwrite_captions run_dir l
               | _ => ret tt
               end ;;
          let zip_path := child RUNS (run_id ++ lit ".zip") in
          d <~ (@read_disk rng) ;;
          match Utils.create_zip d run_dir zip_path with
          | Ok (_, d') =>
              _ <~ @on_disk rng (fun _ => d') ;;
              ret (SendFile zip_path
                     (spaces_to_underscores
                        (brand ++ lit "_" ++ product ++ lit "_creatives.zip")))
          | Raise _ => ret (Redirect (lit "Packaging failed on server."))
          end in
        match body w with
        | Ok (r, w') => (r, w')
        | Raise _ =>
            (Redirect (lit "Generation failed on server. Check server logs."), w)
        end
  | _, _ => (Redirect (lit "Please upload both logo and product images."), w)
  end.

End Generate.

End App.

(** ** A request to run

    Acme Boots with the caption adapter switched on, and an endpoint that
    answers with twelve captions, [caption 01] to [caption 12]. *)

Module DemoRun.
Import CaptionAdapter Compositor App.

Definition captions12 : list str :=
  map (fun i => lit "caption " ++ format_02d (Z.of_nat i)) (seq 1 12).

Definition twelve_captions (_ _ : str) (_ : payload) : result json :=
  Ok (JDict [(lit "candidates",
              JList [JDict [(lit "output", JStr (join [LF] captions12))]])]).

Definition environ (name : str) : option str :=
  if str_eqb name (lit "USE_LLM") then Some (lit "true")
  else if str_eqb name (lit "GEMINI_API_KEY") then Some (lit "k")
  else None.

Definition secure_filename (s : str) : str := s.

Definition image_step (_ : str) (_ : path) (d : fs) : fs := d.

Definition BASE_DIR : path := [lit "app"].

Definition req : request :=
  {| form_brand := Some (lit "Acme");
     form_product := Some (lit "Boots");
     file_logo := Some {| filename := lit "logo.png"; data := [Byte.x01] |};
     file_product :=
       Some {| filename := lit "product.png"; data := [Byte.x02] |} |}.

(** The same form without a logo, with notes for a logo, and with a logo
    of no bytes. *)
Definition req_without_logo : request :=
  {| form_brand := Some (lit "Acme");
     form_product := Some (lit "Boots");
     file_logo := None;
     file_product :=
       Some {| filename := lit "product.png"; data := [Byte.x02] |} |}.

Definition req_notes : request :=
  {| form_brand := Some (lit "Acme");
     form_product := Some (lit "Boots");
     file_logo := Some {| filename := lit "notes.txt"; data := [Byte.x01] |};
     file_product :=
       Some {| filename := lit "product.png"; data := [Byte.x02] |} |}.


Definition start : world nat :=
  {| gen := 0; disk := [([lit "app"], Dir); ([lit "app"; lit "runs"], Dir)];
     written := [] |}.

(** The route on the stand-ins. *)
Definition serve (r : request) : response * world nat :=
  generate Demo.randbelow Demo.random53 Demo.decode Demo.save_png
    Demo.save_jpeg Demo.render Demo.cwd twelve_captions Demo.repr
    secure_filename environ BASE_DIR image_step r (lit "r1") start.

Definition run_dir : path := [lit "app"; lit "runs"; lit "r1"].

(** The request, served. *)
Definition served : response * world nat :=
  generate Demo.randbelow Demo.random53 Demo.decode Demo.save_png
    Demo.save_jpeg Demo.render Demo.cwd twelve_captions Demo.repr
    secure_filename environ BASE_DIR image_step req (lit "r1") start.

(** The caption file of the run, as lines. *)
Definition captions_txt : option (list str) :=
  match lookup (disk (snd served)) (child run_dir (lit "captions.txt")) with
  | Some (File (Text t)) => Some (file_lines t)
  | _ => None
  end.

(** The caption file that C4 describes: caption [i] on the line of
    creative [i], which names its [.jpg] as the compositor does. *)
Definition aligned_captions : list str :=
  map (fun p => caption_entry (fst p) (snd p))
    (combine (range 12) captions12).

End DemoRun.

(** ** adapters/image_gen_adapter.py

    The SDK [google.generativeai] is a [Variable]: whether it could be
    imported, which of the entry points the adapter probes it has, and
    what they answer.  An answer is a Python value; the adapter inspects
    it with [isinstance], [in], [hasattr] and [.get], so the model keeps
    dicts (with string keys), lists, strings, bytes and objects apart.
    An object is the bag of its attributes; it is taken to be true and
    not to be iterable.  An exception leaves the files written before it
    in place, so a step returns the store in both cases. *)

Module ImageAdapter.

Inductive pyval : Type :=
| PNone
| PBool (b : bool)
| PInt (z : Z)
| PStr (s : str)
| PBytes (data : list Byte.byte)
| PList (items : list pyval)
| PDict (entries : list (str * pyval))
| PObj (attrs : list (str * pyval)).

(** [bool(v)] *)
Definition truthy (v : pyval) : bool :=
  match v with
  | PNone => false
  | PBool b => b
  | PInt z => negb (z =? 0)%Z
  | PStr s => negb (Nat.eqb (length s) 0)
  | PBytes data => negb (Nat.eqb (length data) 0)
  | PList items => negb (Nat.eqb (length items) 0)
  | PDict entries => negb (Nat.eqb (length entries) 0)
  | PObj _ => true
  end.

(** [a or b] *)
Definition or_ (a b : pyval) : pyval := if truthy a then a else b.

Fixpoint find (entries : list (str * pyval)) (k : str) : option pyval :=
  match entries with
  | [] => None
  | (k', v) :: rest => if str_eqb k' k then Some v else find rest k
  end.

(** [d.get(k)] *)
Definition get (entries : list (str * pyval)) (k : str) : pyval :=
  match find entries k with Some v => v | None => PNone end.

(** [hasattr(v, name)] and [getattr(v, name, None)] for the names the
    adapter asks for, which no dict, list, string or number has. *)
Definition hasattr (v : pyval) (name : str) : bool :=
  match v with
  | PObj attrs => match find attrs name with Some _ => true | None => false end
  | _ => false
  end.

Definition getattr (v : pyval) (name : str) : pyval :=
  match v with
  | PObj attrs => get attrs name
  | _ => PNone
  end.

(** What leaves a step as an exception. *)
Inductive failure : Type :=
| TypeError (msg : str)
| Raised (e : exn).

(** A step on the files: its outcome, and the files as it leaves them. *)
Definition io (A : Type) : Type := fs -> (A + failure) * fs.

Definition ret {A : Type} (a : A) : io A := fun d => (inl a, d).

Definition fail {A : Type} (e : failure) : io A := fun d => (inr e, d).

Definition and_then {A B : Type} (m : io A) (k : A -> io B) : io B :=
  fun d =>
    match m d with
    | (inl a, d') => k a d'
    | (inr e, d') => (inr e, d')
    end.

Notation "x <~ m ;; k" := (and_then m (fun x => k))
  (at level 61, m at next level, right associativity).

(** [try: body / except Exception: handler] *)
Definition try_except {A : Type} (body : io A) (handler : failure -> io A)
  : io A :=
  fun d =>
    match body d with
    | (inl a, d') => (inl a, d')
    | (inr e, d') => handler e d'
    end.

Definition lift {A : Type} (r : result A) : io A :=
  match r with
  | Ok a => ret a
  | Raise e => fail (Raised e)
  end.

Definition mkdir (p : path) : io unit :=
  fun d => (inl tt, mkdir_parents d p).

(** [with open(outp, "wb") as f: f.write(data)] *)
Definition write_bytes (p : path) (data : list Byte.byte) : io unit :=
  fun d => (inl tt, write d p (File (Binary data))).

(** [for x in v]: the elements of a list, the keys of a dict, the
    characters of a string, the bytes of a bytes object. *)
Definition iterate (v : pyval) : io (list pyval) :=
  match v with
  | PList items => ret items
  | PDict entries => ret (map (fun e => PStr (fst e)) entries)
  | PStr s => ret (map (fun c => PStr [c]) s)
  | PBytes data => ret (map (fun b => PInt (Z.of_N (Byte.to_N b))) data)
  | _ => fail (TypeError (lit "object is not iterable"))
  end.

Record GeminiImageAdapter : Type := { api_key : option str }.

(** [__init__(self, api_key=None)]; [genai.configure] has no effect here,
    and what it raises is printed. *)
Definition __init__ (environ : str -> option str) (key : option str)
  : GeminiImageAdapter :=
  {| api_key := py_or key (CaptionAdapter.GEMINI_API_KEY environ) |}.

Definition placeholder_name (i : Z) : str :=
  lit "gemini_placeholder_" ++ format_02d (i + 1) ++ lit ".png".

Definition gemini_name (i : Z) : str :=
  lit "gemini_img_" ++ format_02d (i + 1) ++ lit ".png".

Definition composite_name (i : Z) : str :=
  lit "local_composite_" ++ format_02d (i + 1) ++ lit ".png".

(** [200 + (i*5)%50] *)
Definition grey_level (i : Z) : Z := (200 + (i * 5) mod 50)%Z.

(** [prompt[:40] + ("..." if len(prompt)>40 else "")] *)
Definition label (prompt : str) : str :=
  firstn 40 prompt ++ (if 40 <? length prompt then lit "..." else []).

(** What an item of the first answer shape carries. *)
Definition payload_generate_image (it : pyval) : pyval :=
  match it with
  | PDict entries =>
      let b64 :=
        or_ (or_ (or_ (get entries (lit "b64")) (get entries (lit "b64_json")))
               (get entries (lit "b64String")))
          (get entries (lit "b64Data")) in
      if negb (truthy b64) then
        match find entries (lit "image") with
        | Some (PDict image) => get image (lit "b64_json")
        | _ => b64
        end
      else b64
  | _ => if hasattr it (lit "b64") then getattr it (lit "b64") else PNone
  end.

(** What an item of the second answer shape carries. *)
Definition payload_images_generate (it : pyval) : pyval :=
  let b64 :=
    match it with
    | PDict entries =>
        or_ (get entries (lit "b64_json")) (get entries (lit "b64"))
    | _ => PNone
    end in
  if negb (truthy b64) && hasattr it (lit "b64_json")
  then getattr it (lit "b64_json")
  else b64.



(** [enumerate(items, start)] *)
Fixpoint enumerate (A : Type) (start : Z) (items : list A) : list (Z * A) :=
  match items with
  | [] => []
  | it :: rest => (start, it) :: enumerate (start + 1) rest
  end.

Section Adapter.

(** [GENAI_AVAILABLE]: the import of the SDK went through. *)
Variable GENAI_AVAILABLE : bool.
(** [hasattr(genai, "generate_image")] and
    [hasattr(genai, "images") and hasattr(genai.images, "generate")] *)
Variable has_generate_image : bool.
Variable has_images_generate : bool.
(** [genai.generate_image(model, prompt, size, n)],
    [genai.images.generate(model, prompt, size, n)] and
    [genai.generate_text(model, prompt, max_output_tokens)] *)
Variable generate_image : str -> str -> str -> Z -> result pyval.
Variable images_generate : str -> str -> str -> Z -> result pyval.
Variable generate_text : str -> str -> Z -> result pyval.
(** [base64.b64decode] *)
Variable b64decode : pyval -> result (list Byte.byte).
(** The placeholder of a size for a text, and the composite of a size, a
    grey level and a label, drawn and encoded as PNG; Pillow refuses
    some sizes.  A refused [img.save] leaves no file. *)
Variable placeholder_png : Z -> str -> result (list Byte.byte).
Variable composite_png : Z -> Z -> str -> result (list Byte.byte).

(** [for i in range(count): ... img.save(outp); saved.append(str(outp))] *)
Fixpoint draw_each (png : Z -> result (list Byte.byte)) (name : Z -> str)
  (out_dir : path) (xs : list Z) (saved : list path) : io (list path) :=
  match xs with
  | [] => ret saved
  | i :: xs' =>
      data <~ lift (png i) ;;
      let outp := child out_dir (name i) in
      _ <~ write_bytes outp data ;;
      draw_each png name out_dir xs' (saved ++ [outp])
  end.

Definition _local_placeholders (prompt : str) (count size : Z)
  (out_dir : path) : io (list path) :=
  _ <~ mkdir out_dir ;;
  draw_each
    (fun _ =>
       placeholder_png size
         (lit "[Gemini Placeholder]" ++ [LF] ++ firstn 80 prompt))
    placeholder_name out_dir (range count) [].

(** [for i, it in enumerate(items)]: the items that carry data are
    decoded and written, under the number of their place. *)
Fixpoint save_items (payload : pyval -> pyval) (out_dir : path) (i : Z)
  (items : list pyval) (saved : list path) : io (list path) :=
  match items with
  | [] => ret saved
  | it :: rest =>
      let b64 := payload it in
      if negb (truthy b64) then save_items payload out_dir (i + 1) rest saved
      else
        img_bytes <~ lift (b64decode b64) ;;
        let outp := child out_dir (gemini_name i) in
        _ <~ write_bytes outp img_bytes ;;
        save_items payload out_dir (i + 1) rest (saved ++ [outp])
  end.

(** [f"{size}x{size}"] *)
Definition size_text (size : Z) : str :=
  str_of_int size ++ lit "x" ++ str_of_int size.

(** The body of the [try] of [generate_images]. *)
Definition ask_sdk (prompt : str) (count size : Z) (out_dir : path)
  : io (list path) :=
  if has_generate_image then
    resp <~ lift (generate_image (lit "gpt-image-1") prompt
                    (size_text size) count) ;;
    items <~ match resp with
             | PDict entries =>
                 match find entries (lit "data") with
                 | Some v => iterate v
                 | None => ret [resp]
                 end
             | PObj attrs =>
                 if hasattr resp (lit "image")
                 then ret [getattr resp (lit "image")]
                 else ret [resp]
             | PList items => ret items
             | _ => ret [resp]
             end ;;
    saved <~ save_items payload_generate_image out_dir 0 items [] ;;
    match saved with
    | [] => _local_placeholders prompt count size out_dir
    | _ => ret saved
    end
  else if has_images_generate then
    resp <~ lift (images_generate (lit "image-bison-001") prompt
                    (size_text size) count) ;;
    items <~ match resp with
             | PDict entries =>
                 match find entries (lit "data") with
                 | Some v => iterate v
                 | None => ret [resp]
                 end
             | PList items => ret items
             | _ => ret [resp]
             end ;;
    saved <~ save_items payload_images_generate out_dir 0 items [] ;;
    match saved with
    | [] => _local_placeholders prompt count size out_dir
    | _ => ret saved
    end
  else
    _ <~ lift (generate_text (lit "gemini-1.5-mini")
                 (lit "Create " ++ str_of_int count
                  ++ lit " image descriptions for: " ++ prompt) 200) ;;
    _local_placeholders prompt count size out_dir.

Definition generate_images (self : GeminiImageAdapter) (prompt : str)
  (count size : Z) (out_dir : path) : io (list path) :=
  _ <~ mkdir out_dir ;;
  if negb GENAI_AVAILABLE || negb (str_truthy (api_key self)) then
    _local_placeholders prompt count size out_dir
  else
    try_except (ask_sdk prompt count size out_dir)
      (fun _ => _local_placeholders prompt count size out_dir).

(** [LocalCompositeAdapter.generate_images] *)
Definition local_generate_images (prompt : str) (count size : Z)
  (out_dir : path) : io (list path) :=
  _ <~ mkdir out_dir ;;
  draw_each (fun i => composite_png size (grey_level i) (label prompt))
    composite_name out_dir (range count) [].

End Adapter.

End ImageAdapter.

(** ** The image step of app.py

    [img_adapter = GeminiImageAdapter()] and then
    [img_adapter.generate_images(prompt=..., count=6, size=1024,
    out_dir=str(sd_out))], inside a [try] that prints what is raised; the
    list returned is printed too.  What remains of the step is what it
    has done to the files.  (The adapter module itself is taken to have
    been imported.) *)

Module AppImages.
Import ImageAdapter.

Section Step.

Variable GENAI_AVAILABLE : bool.
Variable has_generate_image : bool.
Variable has_images_generate : bool.
Variable generate_image : str -> str -> str -> Z -> result pyval.
Variable images_generate : str -> str -> str -> Z -> result pyval.
Variable generate_text : str -> str -> Z -> result pyval.
Variable b64decode : pyval -> result (list Byte.byte).
Variable placeholder_png : Z -> str -> result (list Byte.byte).
Variable environ : str -> option str.

Definition image_step (prompt : str) (sd_out : path) (d : fs) : fs :=
  snd (generate_images GENAI_AVAILABLE has_generate_image
         has_images_generate generate_image images_generate generate_text
         b64decode placeholder_png (__init__ environ None)
         prompt 6 1024 sd_out d).

End Step.

End AppImages.

(** Stand-ins for the image adapter: an SDK that answers with a list of
    three items of which the second carries nothing. *)

Module DemoImages.
Import ImageAdapter.

Definition items : list pyval :=
  [ PDict [(lit "b64", PStr (lit "QQ=="))];
    PDict [(lit "note", PStr (lit "filtered"))];
    PDict [(lit "image", PDict [(lit "b64_json", PStr (lit "Qg=="))])] ].

Definition generate_image (_ _ _ : str) (_ : Z) : result pyval :=
  Ok (PList items).

(** An answer whose second item carries a number for data. *)
Definition generate_broken (_ _ _ : str) (_ : Z) : result pyval :=
  Ok (PList [ PDict [(lit "b64", PStr (lit "QQ=="))];
              PDict [(lit "b64", PInt 7)] ]).

Definition decoded (it : pyval) : list Byte.byte :=
  match it with
  | PDict ((_, PStr _) :: _) => [Byte.x41]
  | _ => [Byte.x42]
  end.

Definition sdk_down (_ _ _ : str) (_ : Z) : result pyval :=
  Raise (RequestException (lit "503")).

Definition generate_text (_ _ : str) (_ : Z) : result pyval := Ok PNone.

Definition b64decode (v : pyval) : result (list Byte.byte) :=
  match v with
  | PStr (_ :: 81%N :: _) => Ok [Byte.x41]
  | PStr (_ :: _) => Ok [Byte.x42]
  | _ => Raise (RuntimeError (lit "Incorrect padding"))
  end.

Definition placeholder_png (_ : Z) (_ : str) : result (list Byte.byte) :=
  Ok [Byte.x50].

Definition composite_png (_ _ : Z) (_ : str) : result (list Byte.byte) :=
  Ok [Byte.x43].

Definition with_key : GeminiImageAdapter := {| api_key := Some (lit "k") |}.

Definition out_dir : path := [lit "run"; lit "gemini_images"].

(** Both steps switched on, and a key. *)
Definition environ (name : str) : option str :=
  if str_eqb name (lit "USE_IMAGE_API") then Some (lit "True")
  else DemoRun.environ name.

(** The route with the image adapter in its image step. *)
Definition serve (r : App.request) : App.response * Compositor.world nat :=
  App.generate Demo.randbelow Demo.random53 Demo.decode Demo.save_png
    Demo.save_jpeg Demo.render Demo.cwd DemoRun.twelve_captions Demo.repr
    DemoRun.secure_filename environ DemoRun.BASE_DIR
    (AppImages.image_step true true false generate_image generate_image
       generate_text b64decode placeholder_png environ)
    r (lit "r1") DemoRun.start.

Definition disk0 : fs := [([lit "run"], Dir)].

End DemoImages.

(** * Theorems *)

(** ** Strings and slices *)

Section StringFacts.

Lemma slice_to_nonneg (A : Type) (xs : list A) (n : Z) :
  (0 <= n)%Z -> slice_to xs n = firstn (Z.to_nat n) xs.
Proof.
  intros Hn. unfold slice_to.
  destruct (Z.ltb_spec n 0); [lia | reflexivity].
Qed.

Lemma lstrip_by_nil (p : char -> bool) (s : str) :
  lstrip_by p s = [] <-> forallb p s = true.
Proof.
  induction s as [|c s IH]; simpl.
  - tauto.
  - destruct (p c); simpl.
    + exact IH.
    + split; discriminate.
Qed.

Lemma lstrip_by_suffix (p : char -> bool) (s : str) :
  exists pre, s = pre ++ lstrip_by p s /\ forallb p pre = true.
Proof.
  induction s as [|c s [pre [E F]]]; simpl.
  - exists []. auto.
  - destruct (p c) eqn:Hc.
    + exists (c :: pre). simpl. rewrite Hc, F. split; [congruence | reflexivity].
    + exists []. auto.
Qed.

Lemma strip_by_nil (p : char -> bool) (s : str) :
  strip_by p s = [] <-> forallb p s = true.
Proof.
  unfold strip_by, rstrip_by. split.
  - intros H.
    assert (H1 : lstrip_by p (rev (lstrip_by p s)) = []).
    { destruct (lstrip_by p (rev (lstrip_by p s))); [reflexivity|].
      apply (f_equal (@length _)) in H. rewrite length_rev in H. discriminate. }
    apply lstrip_by_nil in H1.
    destruct (lstrip_by_suffix p s) as [pre [E F]].
    rewrite E, forallb_app, F. simpl.
    rewrite forallb_forall in H1 |- *.
    intros x Hx. apply H1. apply in_rev in Hx. exact Hx.
  - intros H. apply lstrip_by_nil in H. rewrite H. reflexivity.
Qed.

Lemma islinebreak_isspace (c : char) : islinebreak c = true -> isspace c = true.
Proof.
  unfold islinebreak, isspace. intros H.
  repeat rewrite ?orb_true_iff, ?andb_true_iff, ?N.leb_le, ?N.eqb_eq in *.
  lia.
Qed.

End StringFacts.

(** ** The Python operations, on known values *)

Module PyExamples.

Example splitlines_crlf :
  splitlines (lit "a" ++ [CR; LF] ++ lit "b" ++ [LF]) = [lit "a"; lit "b"].
Proof. reflexivity. Qed.

Example splitlines_blank_line :
  splitlines (lit "a" ++ [LF; LF] ++ lit "b") = [lit "a"; []; lit "b"].
Proof. reflexivity. Qed.

Example splitlines_empty : splitlines [] = [] /\ splitlines [LF] = [[]].
Proof. split; reflexivity. Qed.

Example strip_bullets :
  strip_chars [SPACE; 45%N; BULLET; LF; CR; TAB]
    (lit " - " ++ [BULLET] ++ lit " Buy now - ")
  = lit "Buy now".
Proof. reflexivity. Qed.

Example strip_keeps_inner : strip (lit "  a b  ") = lit "a b".
Proof. reflexivity. Qed.

Example slice_negative : slice_to [1; 2; 3] (-1) = [1; 2].
Proof. reflexivity. Qed.

Example slice_long : slice_to [1; 2; 3] 5 = [1; 2; 3].
Proof. reflexivity. Qed.

Example format_02d_small : format_02d 7 = lit "07".
Proof. reflexivity. Qed.

Example format_02d_large : format_02d 123 = lit "123".
Proof. reflexivity. Qed.

Example str_of_int_negative : str_of_int (-5) = lit "-5".
Proof. reflexivity. Qed.

Example join_three : join [LF] [lit "a"; lit "b"; lit "c"]
                     = lit "a" ++ [LF] ++ lit "b" ++ [LF] ++ lit "c".
Proof. reflexivity. Qed.

(** The class of the sentence fallback cuts at the letter n, not at a
    line feed. *)
Example sentence_class_cuts_at_n :
  re_split_class CaptionAdapter.sentence_class (lit "an.b" ++ [LF] ++ lit "c")
  = [lit "a"; []; lit "b" ++ [LF] ++ lit "c"].
Proof. reflexivity. Qed.

Example suffix_upper :
  lower (suffix [lit "run"; lit "creative_01.JPG"]) = lit ".jpg".
Proof. reflexivity. Qed.

Example suffix_hidden : suffix [lit "run"; lit ".hidden"] = [].
Proof. reflexivity. Qed.

Example suffix_directory : suffix [lit "run"; lit "gemini_images"] = [].
Proof. reflexivity. Qed.

Example allowed_upper : App.allowed (lit "photo.PNG") = true.
Proof. reflexivity. Qed.

Example allowed_no_dot : App.allowed (lit "png") = false.
Proof. reflexivity. Qed.

Example sorted_names :
  sorted [[lit "product_p.png"]; [lit "creative_01.png"]; [lit "logo_l.png"];
          [lit "creative_01.jpg"]]
  = [[lit "creative_01.jpg"]; [lit "creative_01.png"]; [lit "logo_l.png"];
     [lit "product_p.png"]].
Proof. reflexivity. Qed.

Example luma_white : luma 255 255 255 = 255%Z.
Proof. reflexivity. Qed.

Example luma_black : luma 0 0 0 = 0%Z.
Proof. reflexivity. Qed.

Example template_cycle_wraps :
  CaptionAdapter._template_captions (lit "A") (lit "B") 6
  = CaptionAdapter.samples (lit "A") (lit "B")
    ++ [nth 0 (CaptionAdapter.samples (lit "A") (lit "B")) []].
Proof. reflexivity. Qed.

Example template_negative :
  CaptionAdapter._template_captions (lit "A") (lit "B") (-2) = [].
Proof. reflexivity. Qed.

End PyExamples.

(** ** The caption adapter *)

Module CaptionFacts.
Import CaptionAdapter.

Lemma template_loop (brand product : str) (k s : nat) (out : list str) :
  fold_left
    (fun (st : list str * Z) (_ : Z) =>
       let (out, idx) := st in
       (out ++ [sample_at brand product idx], idx + 1)%Z)
    (map Z.of_nat (seq s k)) (out, Z.of_nat s)
  = (out ++ map (sample_at brand product) (map Z.of_nat (seq s k)),
     Z.of_nat (s + k)).
Proof.
  revert s out. induction k as [|k IH]; intros s out; simpl.
  - rewrite app_nil_r, Nat.add_0_r. reflexivity.
  - replace (Z.of_nat s + 1)%Z with (Z.of_nat (S s)) by lia.
    rewrite IH, <- app_assoc. simpl.
    f_equal. f_equal. lia.
Qed.

(** The fallback list is the cycle read from its first template. *)
Lemma _template_captions_cycle (brand product : str) (n : Z) :
  _template_captions brand product n = template_cycle_from brand product 0 n.
Proof.
  unfold _template_captions, template_cycle_from, range.
  change 0%Z with (Z.of_nat 0) at 1.
  rewrite (template_loop brand product (Z.to_nat n) 0 []). simpl.
  reflexivity.
Qed.

Lemma _template_captions_length (brand product : str) (n : Z) :
  length (_template_captions brand product n) = Z.to_nat n.
Proof.
  rewrite _template_captions_cycle. unfold template_cycle_from, range.
  now rewrite !length_map, length_seq.
Qed.

(** Every entry of the fallback list is one of the five templates, the
    one at its position modulo five. *)
Lemma _template_captions_nth (brand product : str) (n : Z) (i : nat) :
  (i < Z.to_nat n)%nat ->
  nth i (_template_captions brand product n) []
  = nth (i mod 5) (samples brand product) [].
Proof.
  intros Hi. rewrite _template_captions_cycle.
  unfold template_cycle_from, range. rewrite map_map.
  rewrite (nth_indep _ [] (sample_at brand product (0 + Z.of_nat 0)))
    by (now rewrite length_map, length_seq).
  rewrite (map_nth (fun x => sample_at brand product (0 + Z.of_nat x))).
  rewrite seq_nth by exact Hi.
  unfold sample_at. simpl length. f_equal.
  change (Z.of_nat 5) with 5%Z.
  rewrite Z.add_0_l, Nat.add_0_l.
  change 5%Z with (Z.of_nat 5). rewrite <- Nat2Z.inj_mod. apply Nat2Z.id.
Qed.

(** *** The sentence fallback never finds anything

    [lines] is empty only when every line of the text is blank; the text is
    then made of white space only, and so is every piece [re.split] cuts. *)

Lemma blank_iff (l : str) : nonblank l = false <-> forallb isspace l = true.
Proof.
  unfold nonblank, strip. rewrite <- strip_by_nil.
  destruct (strip_by isspace l); split; congruence.
Qed.

Lemma splitlines_blank (s cur : str) :
  filter nonblank (splitlines_from cur s) = [] ->
  forallb isspace (rev cur ++ s) = true.
Proof.
  revert cur. induction s as [|c rest IH]; intros cur H.
  - rewrite app_nil_r. destruct cur as [|x cur']; [reflexivity|].
    cbn [splitlines_from filter] in H. apply blank_iff.
    destruct (nonblank (rev (x :: cur'))) eqn:E; [discriminate | reflexivity].
  - assert (Hstep : forall tail,
               filter nonblank (rev cur :: tail) = [] ->
               forallb isspace (rev cur) = true /\ filter nonblank tail = []).
    { intros tail Ht. simpl in Ht.
      destruct (nonblank (rev cur)) eqn:E; [discriminate|].
      split; [now apply blank_iff | exact Ht]. }
    rewrite forallb_app. simpl in H |- *.
    destruct (char_eqb c CR) eqn:Hcr.
    + apply N.eqb_eq in Hcr. subst c.
      assert (Hrest : filter nonblank (splitlines_from [] rest) = []
                      /\ forallb isspace (rev cur) = true).
      { destruct rest as [|c' rest'].
        - apply Hstep in H. tauto.
        - destruct (char_eqb c' LF) eqn:Hlf.
          + apply N.eqb_eq in Hlf. subst c'. apply Hstep in H.
            destruct H as [H1 H2]. split; [|exact H1].
            simpl. exact H2.
          + apply Hstep in H. tauto. }
      destruct Hrest as [Hr Hc]. rewrite Hc. simpl.
      exact (IH [] Hr).
    + destruct (islinebreak c) eqn:Hlb.
      * apply Hstep in H. destruct H as [H1 H2].
        rewrite H1, (islinebreak_isspace c Hlb). simpl. exact (IH [] H2).
      * specialize (IH (c :: cur) H). simpl in IH.
        rewrite <- app_assoc, forallb_app in IH. exact IH.
Qed.

Lemma split_class_pieces (p : char -> bool) (s cur piece : str) :
  In piece (split_class_from p cur s) ->
  forall c, In c piece -> In c (rev cur ++ s).
Proof.
  revert cur. induction s as [|x rest IH]; intros cur Hin c Hc; simpl in Hin.
  - destruct Hin as [<- | []]. now rewrite app_nil_r.
  - destruct (p x).
    + destruct Hin as [<- | Hin].
      * apply in_or_app. now left.
      * specialize (IH [] Hin c Hc). simpl in IH.
        apply in_or_app. right. now right.
    + specialize (IH (x :: cur) Hin c Hc). simpl in IH.
      now rewrite <- app_assoc in IH.
Qed.

Lemma sentence_pieces_dead (text : str) :
  caption_lines text = [] -> sentence_pieces text = [].
Proof.
  unfold caption_lines, sentence_pieces, splitlines, re_split_class.
  intros H. apply map_eq_nil in H. apply splitlines_blank in H. simpl in H.
  rewrite forallb_forall in H.
  assert (E : filter nonblank (split_class_from sentence_class [] text) = []).
  { destruct (filter nonblank (split_class_from sentence_class [] text))
      as [|piece tl] eqn:F; [reflexivity|].
    assert (Hin : In piece (filter nonblank
                              (split_class_from sentence_class [] text)))
      by (rewrite F; now left).
    apply filter_In in Hin. destruct Hin as [Hin Hnb].
    assert (Hb : nonblank piece = false).
    { apply blank_iff. apply forallb_forall. intros c Hc. apply H.
      exact (split_class_pieces _ _ _ _ Hin c Hc). }
    congruence. }
  now rewrite E.
Qed.

(** *** Lines joined by line feeds *)

Lemma splitlines_skip (l rest cur : str) :
  no_linebreak l ->
  splitlines_from cur (l ++ rest) = splitlines_from (rev l ++ cur) rest.
Proof.
  revert cur. induction l as [|c l IH]; intros cur H; [reflexivity|].
  assert (Hc : islinebreak c = false) by (apply H; now left).
  assert (Hcr : char_eqb c CR = false).
  { unfold char_eqb. destruct (N.eqb_spec c CR) as [->|]; [|reflexivity].
    discriminate Hc. }
  simpl. rewrite Hcr, Hc.
  rewrite IH by (intros x Hx; apply H; now right).
  now rewrite <- app_assoc.
Qed.

(** Python cuts a text made of lines joined by line feeds back into
    these lines, up to blank ones. *)
Lemma splitlines_join (ls : list str) :
  Forall no_linebreak ls ->
  filter nonblank (splitlines (join [LF] ls)) = filter nonblank ls.
Proof.
  unfold splitlines. induction ls as [|l ls IH]; intros HF; [reflexivity|].
  inversion HF as [|? ? Hl HF']; subst.
  destruct ls as [|l2 ls].
  - simpl join. rewrite <- (app_nil_r l) at 1.
    rewrite splitlines_skip by exact Hl. rewrite app_nil_r. simpl.
    destruct (rev l) as [|x r] eqn:E.
    + apply (f_equal (@rev _)) in E. rewrite rev_involutive in E. subst l.
      reflexivity.
    + rewrite <- E, rev_involutive. reflexivity.
  - change (join [LF] (l :: l2 :: ls)) with (l ++ LF :: join [LF] (l2 :: ls)).
    rewrite splitlines_skip by exact Hl. rewrite app_nil_r.
    cbn [splitlines_from]. change (char_eqb LF CR) with false.
    change (islinebreak LF) with true. cbn iota.
    rewrite rev_involutive. cbn [filter]. rewrite (IH HF'). reflexivity.
Qed.

Section Adapter.

Variable http_post : str -> str -> payload -> result json.
Variable repr : json -> str.

Local Abbreviation generate_captions := (generate_captions http_post repr).
Local Abbreviation _call_rest := (_call_rest http_post).
Local Abbreviation _extract_text_from_response := (_extract_text_from_response repr).
Local Abbreviation no_usable_text := (no_usable_text http_post repr).

Lemma generate_captions_fallback (self : GeminiCaptionAdapter)
  (brand product : str) (n : Z) :
  no_usable_text self brand product n ->
  generate_captions self brand product n
  = Ok (_template_captions brand product n).
Proof.
  unfold CaptionAdapter.generate_captions.
  intros [Hk | [[e He] | [data [Hd Hx]]]].
  - now rewrite Hk.
  - destruct (str_truthy (api_key self)); [simpl | reflexivity].
    now rewrite He.
  - destruct (str_truthy (api_key self)); [simpl | reflexivity].
    rewrite Hd. simpl.
    now destruct Hx as [-> | ->].
Qed.

(** What the adapter returns once a text has been extracted. *)
Lemma generate_captions_usable (self : GeminiCaptionAdapter)
  (brand product : str) (n : Z) (data : json) (text : str) :
  (0 <= n)%Z ->
  str_truthy (api_key self) = true ->
  _call_rest self (prompt_of brand product n) 200 = Ok data ->
  _extract_text_from_response data = Some text ->
  text <> [] ->
  let out := firstn (Z.to_nat n) (caption_lines text) in
  generate_captions self brand product n
  = Ok (out ++ _template_captions brand product (n - Z.of_nat (length out))).
Proof.
  intros Hn Hk Hd Hx Ht out.
  unfold CaptionAdapter.generate_captions.
  rewrite Hk. simpl. rewrite Hd. simpl.
  rewrite Hx.
  destruct text as [|c text']; [congruence|].
  set (text := c :: text') in *.
  assert (El : match caption_lines text with
               | [] => sentence_pieces text
               | _ :: _ => caption_lines text
               end = caption_lines text).
  { destruct (caption_lines text) eqn:E; [|reflexivity].
    now apply sentence_pieces_dead. }
  rewrite El. rewrite !(slice_to_nonneg (caption_lines text) Hn). fold out.
  assert (Hlen : (length out <= Z.to_nat n)%nat) by apply firstn_le_length.
  destruct (Z.ltb_spec (Z.of_nat (length out)) n) as [Hlt | Hge].
  - rewrite slice_to_nonneg by exact Hn. unfold try_except. f_equal.
    apply firstn_all2.
    rewrite length_app, _template_captions_length. lia.
  - rewrite slice_to_nonneg by exact Hn. unfold try_except. f_equal.
    replace (n - Z.of_nat (length out))%Z with 0%Z by lia.
    change (_template_captions brand product 0) with (@nil str).
    rewrite app_nil_r. apply firstn_all2. lia.
Qed.

(** C5.  Without a credential ([api_key] is [None] or the empty string)
    [generate_captions(brand, product, n)] returns exactly the list that
    the fallback generator [_template_captions(brand, product, n)] returns,
    for every brand, product and integer [n]. *)
Theorem generate_captions_without_credential (self : GeminiCaptionAdapter)
  (brand product : str) (n : Z) :
  str_truthy (api_key self) = false ->
  generate_captions self brand product n
  = Ok (_template_captions brand product n).
Proof.
  intros Hk. apply generate_captions_fallback. now left.
Qed.

(** C6.  [generate_captions] never raises: for every brand, product and
    [n >= 1] and every behaviour of the remote endpoint it returns a list
    of exactly [n] captions; when no credential is configured, when the
    call raises, or when no text (or an empty one) is extracted, that list
    is the template cycle, entry [i] being template [i mod 5]. *)
Theorem generate_captions_never_raises (self : GeminiCaptionAdapter)
  (brand product : str) (n : Z) :
  (1 <= n)%Z ->
  exists out,
    generate_captions self brand product n = Ok out
    /\ Z.of_nat (length out) = n
    /\ (no_usable_text self brand product n ->
        out = _template_captions brand product n
        /\ forall i, (i < length out)%nat ->
             nth i out [] = nth (i mod 5) (samples brand product) []).
Proof.
  intros Hn.
  assert (Hfall : forall out,
    out = _template_captions brand product n ->
    Z.of_nat (length out) = n
    /\ (no_usable_text self brand product n ->
        out = _template_captions brand product n
        /\ forall i, (i < length out)%nat ->
             nth i out [] = nth (i mod 5) (samples brand product) [])).
  { intros out ->. rewrite _template_captions_length.
    split; [lia|]. intros _. split; [reflexivity|].
    intros i Hi. now apply _template_captions_nth. }
  destruct (str_truthy (api_key self)) eqn:Hk.
  2:{ eexists. split.
      - apply generate_captions_fallback. now left.
      - now apply Hfall. }
  destruct (_call_rest self (prompt_of brand product n) 200) as [data|e] eqn:Hd.
  2:{ eexists. split.
      - apply generate_captions_fallback. right. left. now exists e.
      - now apply Hfall. }
  destruct (_extract_text_from_response data) as [[|c text]|] eqn:Hx.
  - eexists. split.
    + apply generate_captions_fallback. right. right. exists data. auto.
    + now apply Hfall.
  - eexists. split.
    + apply (generate_captions_usable self brand product (n := n) (data := data)
               (text := c :: text)); try assumption; [lia | discriminate].
    + split.
      * rewrite length_app, _template_captions_length.
        pose proof (firstn_le_length (Z.to_nat n) (caption_lines (c :: text))).
        lia.
      * intros [Hk' | [[e He] | [data' [Hd' Hx']]]].
        -- congruence.
        -- congruence.
        -- assert (data' = data) by congruence. subst data'.
           destruct Hx'; congruence.
  - eexists. split.
    + apply generate_captions_fallback. right. right. exists data. auto.
    + now apply Hfall.
Qed.


(** The same for a text given as lines joined by line feeds: the first
    [n] lines that are not blank, stripped. *)
Corollary generate_captions_joined_lines (self : GeminiCaptionAdapter)
  (brand product : str) (n : Z) (data : json) (ls : list str) :
  (1 <= n)%Z ->
  str_truthy (api_key self) = true ->
  _call_rest self (prompt_of brand product n) 200 = Ok data ->
  _extract_text_from_response data = Some (join [LF] ls) ->
  Forall no_linebreak ls ->
  (Z.to_nat n <= length (filter nonblank ls))%nat ->
  generate_captions self brand product n
  = Ok (map (strip_chars bullet_chars)
          (firstn (Z.to_nat n) (filter nonblank ls))).
Proof.
  intros Hn Hk Hd Hx Hls Hlen.
  assert (Ht : join [LF] ls <> []).
  { intros E. pose proof (splitlines_join Hls) as S. rewrite E in S.
    simpl in S. rewrite <- S in Hlen. simpl in Hlen. lia. }
  rewrite (generate_captions_usable self brand product (n := n) (data := data)
             (text := join [LF] ls)); try assumption; try lia.
  unfold caption_lines. rewrite (splitlines_join Hls), firstn_map.
  rewrite length_map, length_firstn, Nat.min_l by exact Hlen.
  replace (n - Z.of_nat (Z.to_nat n))%Z with 0%Z by lia.
  change (_template_captions brand product 0) with (@nil str).
  now rewrite app_nil_r.
Qed.

(** C3 (amended).  When the call succeeds and only [k < n] caption lines
    come out of the extracted text, [generate_captions] returns these [k]
    lines followed by [_template_captions(brand, product, n - k)]: the
    first [n - k] entries of the template cycle, read from its first
    template. *)
Theorem generate_captions_pads_from_first_template
  (self : GeminiCaptionAdapter) (brand product : str) (n : Z)
  (data : json) (text : str) :
  str_truthy (api_key self) = true ->
  _call_rest self (prompt_of brand product n) 200 = Ok data ->
  _extract_text_from_response data = Some text ->
  text <> [] ->
  (Z.of_nat (length (caption_lines text)) < n)%Z ->
  let k := Z.of_nat (length (caption_lines text)) in
  generate_captions self brand product n
  = Ok (caption_lines text ++ _template_captions brand product (n - k))
  /\ _template_captions brand product (n - k)
     = template_cycle_from brand product 0 (n - k).
Proof.
  intros Hk Hd Hx Ht Hlt k. split; [|apply _template_captions_cycle].
  rewrite (generate_captions_usable self brand product (n := n) (data := data)
             (text := text)); try assumption; try lia.
  rewrite firstn_all2 by lia. reflexivity.
Qed.

End Adapter.

(** *** On the stand-ins *)

Lemma generate_captions_without_credential_witness :
  generate_captions Demo.one_caption Demo.repr Demo.without_key
    (lit "Acme") (lit "Boots") 3
  = Ok (_template_captions (lit "Acme") (lit "Boots") 3).
Proof.
  apply (@generate_captions_without_credential Demo.one_caption Demo.repr
           Demo.without_key (lit "Acme") (lit "Boots") 3).
  reflexivity.
Defined.

Lemma generate_captions_never_raises_witness :
  exists out,
    generate_captions Demo.one_caption Demo.repr Demo.with_key
      (lit "Acme") (lit "Boots") 3 = Ok out
    /\ Z.of_nat (length out) = 3%Z
    /\ (no_usable_text Demo.one_caption Demo.repr Demo.with_key
          (lit "Acme") (lit "Boots") 3 ->
        out = _template_captions (lit "Acme") (lit "Boots") 3
        /\ forall i, (i < length out)%nat ->
             nth i out [] = nth (i mod 5) (samples (lit "Acme") (lit "Boots")) []).
Proof.
  apply (@generate_captions_never_raises Demo.one_caption Demo.repr
           Demo.with_key (lit "Acme") (lit "Boots") 3).
  lia.
Defined.


(** Two captions asked, one line answered: the line, then the first
    template. *)
Lemma generate_captions_pads_from_first_template_witness :
  generate_captions Demo.one_caption Demo.repr Demo.with_key
    (lit "Acme") (lit "Boots") 2
  = Ok (caption_lines (lit "Buy now")
        ++ _template_captions (lit "Acme") (lit "Boots")
             (2 - Z.of_nat (length (caption_lines (lit "Buy now")))))
  /\ _template_captions (lit "Acme") (lit "Boots")
       (2 - Z.of_nat (length (caption_lines (lit "Buy now"))))
     = template_cycle_from (lit "Acme") (lit "Boots") 0
         (2 - Z.of_nat (length (caption_lines (lit "Buy now")))).
Proof.
  apply (@generate_captions_pads_from_first_template Demo.one_caption
           Demo.repr Demo.with_key (lit "Acme") (lit "Boots") 2
           (JDict [(lit "output", JStr (lit "Buy now"))]) (lit "Buy now")).
  - reflexivity.
  - reflexivity.
  - reflexivity.
  - discriminate.
  - vm_compute. reflexivity.
Defined.

(** C3, as stated, fails: with one line extracted and two captions
    asked, the second caption is the first template of the cycle, not
    the second. *)
Lemma padding_continues_claim_fails : ~ padding_continues_claim.
Proof.
  intros H.
  specialize (H Demo.one_caption Demo.repr Demo.with_key
                (lit "Acme") (lit "Boots") 2%Z
                (JDict [(lit "output", JStr (lit "Buy now"))])
                (lit "Buy now")
                eq_refl eq_refl eq_refl).
  cbn zeta in H.
  assert (Hne : lit "Buy now" <> []) by discriminate.
  specialize (H Hne).
  assert (Hlt : (Z.of_nat (length (caption_lines (lit "Buy now"))) < 2)%Z)
    by (vm_compute; reflexivity).
  specialize (H Hlt). vm_compute in H. discriminate H.
Qed.

End CaptionFacts.

(** ** The subject crop *)

Module AutocropFacts.
Import Autocrop.

Lemma last_cons (A : Type) (a d : A) (l : list A) :
  last (a :: l) d = last l a.
Proof.
  revert a d. induction l as [|b l IH]; intros a d; [reflexivity|].
  change (last (a :: b :: l) d) with (last (b :: l) d).
  now rewrite !IH.
Qed.

(** The first and the last element that [filter] keeps of an interval. *)
Lemma filter_seq_ends (p : nat -> bool) (n s x0 : nat) (xs : list nat) :
  filter p (seq s n) = x0 :: xs ->
  p x0 = true /\ p (last xs x0) = true
  /\ s <= x0 /\ x0 <= last xs x0 /\ last xs x0 < s + n
  /\ forall x, s <= x < s + n -> p x = true -> x0 <= x <= last xs x0.
Proof.
  revert s x0 xs. induction n as [|n IH]; intros s x0 xs H; [discriminate|].
  simpl in H. destruct (p s) eqn:Hs.
  - injection H as <- Hxs. destruct xs as [|x1 xs'].
    + simpl. repeat split; try assumption; try lia.
      all: destruct (Nat.eq_dec x s) as [->|Hne]; [lia|].
      all: assert (Hin : In x (filter p (seq (S s) n)))
          by (apply filter_In; split; [apply in_seq; lia | assumption]).
      all: rewrite Hxs in Hin; destruct Hin.
    + destruct (IH (S s) x1 xs' Hxs) as (P1 & P2 & B1 & B2 & B3 & B4).
      rewrite last_cons. repeat split; try assumption; try lia.
      all: destruct (Nat.eq_dec x s) as [->|Hne]; [lia|].
      all: assert (x1 <= x <= last xs' x1) by (apply B4; [lia | assumption]).
      all: lia.
  - destruct (IH (S s) x0 xs H) as (P1 & P2 & B1 & B2 & B3 & B4).
    repeat split; try assumption; try lia.
    all: destruct (Nat.eq_dec x s) as [->|Hne]; [congruence|].
    all: assert (x0 <= x <= last xs x0) by (apply B4; [lia | assumption]).
    all: lia.
Qed.

Lemma filter_seq_none (p : nat -> bool) (n x : nat) :
  filter p (seq 0 n) = [] -> x < n -> p x = false.
Proof.
  intros H Hx. destruct (p x) eqn:E; [|reflexivity].
  assert (Hin : In x (filter p (seq 0 n)))
    by (apply filter_In; split; [apply in_seq; lia | assumption]).
  rewrite H in Hin. destruct Hin.
Qed.

Lemma existsb_seq (g : nat -> bool) (n : nat) :
  existsb g (seq 0 n) = true <-> exists i, i < n /\ g i = true.
Proof.
  rewrite existsb_exists. split; intros [i [H1 H2]]; exists i.
  - apply in_seq in H1. split; [lia | assumption].
  - split; [apply in_seq; lia | assumption].
Qed.

Lemma bbox_of_tight (w h : nat) (f : nat -> nat -> bool) (b : box) :
  bbox_of w h f = Some b -> tight_box w h f b.
Proof.
  unfold bbox_of.
  destruct (filter _ (seq 0 w)) as [|x0 xs] eqn:Hc; [discriminate|].
  destruct (filter _ (seq 0 h)) as [|y0 ys] eqn:Hr; [discriminate|].
  intros H. injection H as <-.
  destruct (filter_seq_ends _ _ _ Hc) as (C1 & C2 & C3 & C4 & C5 & C6).
  destruct (filter_seq_ends _ _ _ Hr) as (R1 & R2 & R3 & R4 & R5 & R6).
  apply existsb_seq in C1, C2, R1, R2.
  unfold tight_box. replace (S (last xs x0) - 1) with (last xs x0) by lia.
  replace (S (last ys y0) - 1) with (last ys y0) by lia.
  repeat split; try assumption; try lia.
  - assert (x0 <= x <= last xs x0); [|lia].
    apply C6; [lia|]. apply existsb_seq. now exists y.
  - assert (x0 <= x <= last xs x0); [|lia].
    apply C6; [lia|]. apply existsb_seq. now exists y.
  - assert (y0 <= y <= last ys y0); [|lia].
    apply R6; [lia|]. apply existsb_seq. now exists x.
  - assert (y0 <= y <= last ys y0); [|lia].
    apply R6; [lia|]. apply existsb_seq. now exists x.
Qed.

Lemma bbox_of_none (w h : nat) (f : nat -> nat -> bool) :
  bbox_of w h f = None <->
  forall x y, x < w -> y < h -> f x y = false.
Proof.
  unfold bbox_of. split.
  - intros H x y Hx Hy. destruct (f x y) eqn:E; [|reflexivity].
    destruct (filter _ (seq 0 w)) as [|x0 xs] eqn:Hc.
    + pose proof (filter_seq_none _ Hc Hx) as F. simpl in F.
      assert (T : existsb (fun y => f x y) (seq 0 h) = true)
        by (apply existsb_seq; now exists y).
      congruence.
    + destruct (filter _ (seq 0 h)) as [|y0 ys] eqn:Hr; [|discriminate].
      pose proof (filter_seq_none _ Hr Hy) as F. simpl in F.
      assert (T : existsb (fun x => f x y) (seq 0 w) = true)
        by (apply existsb_seq; now exists x).
      congruence.
  - intros H.
    destruct (filter _ (seq 0 w)) as [|x0 xs] eqn:Hc; [reflexivity|].
    destruct (filter_seq_ends _ _ _ Hc) as (C1 & _ & _ & _ & C5 & _).
    apply existsb_seq in C1. destruct C1 as [y [Hy Hf]].
    pose proof (filter_seq_ends _ _ _ Hc) as (_ & _ & _ & C4 & _).
    rewrite H in Hf by lia. discriminate.
Qed.

Lemma bbox_of_some (w h : nat) (f : nat -> nat -> bool) :
  (exists x y, x < w /\ y < h /\ f x y = true) ->
  exists b, bbox_of w h f = Some b.
Proof.
  intros (x & y & Hx & Hy & Hf).
  destruct (bbox_of w h f) as [b|] eqn:E; [now exists b|].
  rewrite bbox_of_none in E. rewrite E in Hf by assumption. discriminate.
Qed.

Lemma bbox_of_ext (w h : nat) (f g : nat -> nat -> bool) :
  (forall x y, f x y = g x y) -> bbox_of w h f = bbox_of w h g.
Proof.
  intros E. unfold bbox_of.
  assert (Ex : forall (u v : nat -> bool) l,
             (forall i, u i = v i) -> existsb u l = existsb v l).
  { intros u v l Huv. induction l as [|a l IH]; simpl; [reflexivity|].
    now rewrite Huv, IH. }
  rewrite (filter_ext _ (fun x => existsb (fun y => g x y) (seq 0 h)))
    by (intros x; apply Ex; intros y; apply E).
  rewrite (filter_ext (fun y => existsb (fun x => f x y) (seq 0 w))
             (fun y => existsb (fun x => g x y) (seq 0 w)))
    by (intros y; apply Ex; intros x; apply E).
  reflexivity.
Qed.

Lemma getbbox_alpha (img : Image) :
  getbbox (last_band img) = bbox_of (width img) (height img) (opaque_at img).
Proof.
  unfold getbbox. simpl. apply bbox_of_ext. intros x y.
  unfold nonzero, opaque_at. simpl. apply orb_false_r.
Qed.

Lemma getbbox_mask (img : Image) (threshold : Z) :
  getbbox (point (near_white_mask threshold) (convert_L img))
  = bbox_of (width img) (height img) (subject_at img threshold).
Proof. reflexivity. Qed.

(** On a colour pixel the subject test is the luminance test. *)
Lemma subject_at_colour (img : Image) (threshold : Z) (x y : nat)
  (r g b : Z) (rest : list Z) :
  mode_of img <> L ->
  getpixel img x y = r :: g :: b :: rest ->
  subject_at img threshold x y = (luma r g b <? 255 - threshold)%Z.
Proof.
  intros Hm Hp. unfold subject_at, point, convert_L, nonzero.
  cbn [getpixel mode_of]. rewrite Hp.
  destruct (mode_of img); [congruence| |];
    cbn [map existsb]; unfold near_white_mask;
    destruct (luma r g b <? 255 - threshold)%Z; reflexivity.
Qed.

Lemma center_box_square (img : Image) :
  width (crop img (center_box img)) = Nat.min (width img) (height img)
  /\ height (crop img (center_box img)) = Nat.min (width img) (height img).
Proof.
  unfold center_box, crop. cbn -[Nat.div Nat.min]. lia.
Qed.




End AutocropFacts.

(** ** File names *)

Module NameFacts.
Import Compositor.

Lemma lit_inj (a b : string) : lit a = lit b -> a = b.
Proof.
  unfold lit. intros H.
  rewrite <- (string_of_list_ascii_of_string a),
          <- (string_of_list_ascii_of_string b).
  f_equal. revert H.
  generalize (list_ascii_of_string a) (list_ascii_of_string b).
  intros l. induction l as [|x l IH]; intros [|y m] H; try discriminate.
  - reflexivity.
  - simpl in H. injection H as Hxy Hlm. f_equal; [|now apply IH].
    rewrite <- (ascii_N_embedding x), <- (ascii_N_embedding y).
    now rewrite Hxy.
Qed.

Lemma lit_String (c : ascii) (t : string) :
  lit (String c t) = N_of_ascii c :: lit t.
Proof. reflexivity. Qed.

Lemma lit_length (t : string) : length (lit t) = String.length t.
Proof.
  induction t as [|c t IH]; [reflexivity|].
  rewrite lit_String. simpl. now rewrite IH.
Qed.

Lemma pad_zeros_lit (k : nat) (d : Decimal.uint) :
  lit (NilEmpty.string_of_uint (Nat.iter k Decimal.D0 d))
  = repeat 48%N k ++ lit (NilEmpty.string_of_uint d).
Proof.
  induction k as [|k IH]; [reflexivity|].
  cbn [Nat.iter nat_rect NilEmpty.string_of_uint]. rewrite lit_String.
  unfold Nat.iter in IH. rewrite IH. reflexivity.
Qed.

Lemma pad_zeros_value (k : nat) (d : Decimal.uint) :
  N.of_uint (Nat.iter k Decimal.D0 d) = N.of_uint d.
Proof.
  induction k as [|k IH]; [reflexivity|]. exact IH.
Qed.

Lemma to_uint_not_nil (m : N) : N.to_uint m <> Decimal.Nil.
Proof.
  destruct m as [|q]; [discriminate|]. apply Unsigned.to_uint_nonnil.
Qed.

Lemma nilzero_to_uint (m : N) :
  NilZero.string_of_uint (N.to_uint m) = NilEmpty.string_of_uint (N.to_uint m).
Proof.
  pose proof (to_uint_not_nil m) as H.
  destruct (N.to_uint m); [congruence | reflexivity ..].
Qed.

Lemma format_02d_padded (i : Z) :
  (0 <= i)%Z ->
  exists k, format_02d i
            = lit (NilEmpty.string_of_uint (Nat.iter k Decimal.D0 (N.to_uint (Z.abs_N i)))).
Proof.
  intros Hi. unfold format_02d.
  destruct (Z.ltb_spec i 0); [lia|].
  rewrite nilzero_to_uint. eexists. symmetry. apply pad_zeros_lit.
Qed.

Lemma format_02d_inj (i j : Z) :
  (0 <= i)%Z -> (0 <= j)%Z -> format_02d i = format_02d j -> i = j.
Proof.
  intros Hi Hj H.
  destruct (format_02d_padded Hi) as [ki Ei].
  destruct (format_02d_padded Hj) as [kj Ej].
  rewrite Ei, Ej in H. apply lit_inj in H.
  assert (E : Some (Nat.iter ki Decimal.D0 (N.to_uint (Z.abs_N i)))
              = Some (Nat.iter kj Decimal.D0 (N.to_uint (Z.abs_N j)))).
  { rewrite <- !NilEmpty.usu. now rewrite H. }
  injection E as E. apply (f_equal N.of_uint) in E.
  rewrite !pad_zeros_value, !DecimalN.Unsigned.of_to in E. lia.
Qed.


Lemma range_bounds (count i : Z) : In i (range count) -> (0 <= i < count)%Z.
Proof.
  unfold range. rewrite in_map_iff. intros [k [<- Hk]].
  apply in_seq in Hk. lia.
Qed.

Lemma range_NoDup (count : Z) : NoDup (range count).
Proof.
  unfold range. apply Injective_map_NoDup.
  - intros a b. apply Nat2Z.inj.
  - apply seq_NoDup.
Qed.

Lemma range_length (count : Z) : length (range count) = Z.to_nat count.
Proof. unfold range. now rewrite length_map, length_seq. Qed.






End NameFacts.

(** ** Files *)

Module FSFacts.

Lemma str_eqb_eq (a b : str) : str_eqb a b = true <-> a = b.
Proof.
  revert b. induction a as [|x a IH]; intros [|y b]; simpl;
    try (split; [discriminate | congruence]); [tauto|].
  unfold char_eqb. rewrite andb_true_iff, N.eqb_eq, IH.
  split; [intros [-> ->]; reflexivity | intros [= -> ->]; auto].
Qed.

Lemma path_eqb_eq (a b : path) : path_eqb a b = true <-> a = b.
Proof.
  revert b. induction a as [|x a IH]; intros [|y b]; simpl;
    try (split; [discriminate | congruence]); [tauto|].
  rewrite andb_true_iff, str_eqb_eq, IH.
  split; [intros [-> ->]; reflexivity | intros [= -> ->]; auto].
Qed.

Lemma path_eqb_refl (a : path) : path_eqb a a = true.
Proof. now apply path_eqb_eq. Qed.

Lemma lookup_write (d : fs) (q p : path) (n : node) :
  lookup (write d q n) p = if path_eqb q p then Some n else lookup d p.
Proof.
  induction d as [|[r m] d IH]; simpl.
  - reflexivity.
  - destruct (path_eqb r q) eqn:Erq; simpl.
    + apply path_eqb_eq in Erq. subst r.
      destruct (path_eqb q p); reflexivity.
    + rewrite IH. destruct (path_eqb r p) eqn:Erp; [|reflexivity].
      apply path_eqb_eq in Erp. subst r.
      destruct (path_eqb q p) eqn:Eqp; [|reflexivity].
      apply path_eqb_eq in Eqp. subst q.
      now rewrite path_eqb_refl in Erq.
Qed.

(** Making directories leaves what exists as it is. *)
Lemma lookup_mkdir_parents (d : fs) (q p : path) (x : node) :
  lookup d p = Some x -> lookup (mkdir_parents d q) p = Some x.
Proof.
  unfold mkdir_parents. generalize (seq 1 (length q)). intros ks.
  revert d. induction ks as [|k ks IH]; intros d H; simpl; [exact H|].
  apply IH. destruct (exists_ d (firstn k q)) eqn:E; [exact H|].
  rewrite lookup_write. destruct (path_eqb (firstn k q) p) eqn:Eq; [|exact H].
  apply path_eqb_eq in Eq. subst p. unfold exists_ in E. now rewrite H in E.
Qed.


Lemma lookup_apply_writes_other (l : list (path * content)) (d : fs) (p : path) :
  ~ In p (map fst l) -> lookup (apply_writes d l) p = lookup d p.
Proof.
  revert d. induction l as [|[q c] l IH]; intros d Hp; [reflexivity|].
  simpl in Hp. cbn [apply_writes fold_left fst snd].
  fold (apply_writes (write d q (File c)) l).
  rewrite IH by tauto. rewrite lookup_write.
  destruct (path_eqb q p) eqn:E; [|reflexivity].
  apply path_eqb_eq in E. tauto.
Qed.

(** Files written under different paths are all there at the end. *)
Lemma lookup_apply_writes (l : list (path * content)) (d : fs) (p : path)
  (c : content) :
  NoDup (map fst l) -> In (p, c) l ->
  lookup (apply_writes d l) p = Some (File c).
Proof.
  revert d. induction l as [|[q c0] l IH]; intros d Hnd Hin; [destruct Hin|].
  simpl in Hnd. inversion Hnd as [|? ? Hq Hnd']; subst.
  cbn [apply_writes fold_left fst snd].
  fold (apply_writes (write d q (File c0)) l).
  destruct Hin as [Heq | Hin].
  - injection Heq as -> ->.
    rewrite lookup_apply_writes_other by exact Hq.
    rewrite lookup_write. now rewrite path_eqb_refl.
  - now apply IH.
Qed.

End FSFacts.

(** ** The compositor *)

Module CompositorFacts.
Import Compositor NameFacts FSFacts.

(** *** Lines of the caption file *)






(** *** One run *)

Section Run.

Variable rng : Type.
Variable randbelow : Z -> rng -> Z * rng.
Variable random53 : rng -> Z * rng.
Variable decode : list Byte.byte -> option Image.
Variable save_png : Image -> list Byte.byte.
Variable save_jpeg : Z -> Image -> list Byte.byte.
Variable render : Image -> Image -> Z -> str -> str -> cosmetics -> result Image.
Variable cwd : path.

Hypothesis Hrange : randbelow_in_range randbelow.

Local Abbreviation run := (run rng).
Local Abbreviation world := (world rng).

Lemma only_draws_ret (A : Type) (a : A) (good : A -> Prop) :
  good a -> only_draws (@ret rng A a) good.
Proof.
  intros H w. exists a, w. auto.
Qed.

Lemma only_draws_draw (A : Type) (f : rng -> A * rng) (good : A -> Prop) :
  (forall g, good (fst (f g))) -> only_draws (draw f) good.
Proof.
  intros H w. unfold draw. specialize (H (gen w)).
  destruct (f (gen w)) as [a g]. eexists. eexists.
  split; [reflexivity|]. simpl. auto.
Qed.

Lemma only_draws_bind (A B : Type) (m : run A) (k : A -> run B)
  (P : A -> Prop) (Q : B -> Prop) :
  only_draws m P -> (forall a, P a -> only_draws (k a) Q) ->
  only_draws (and_then m k) Q.
Proof.
  intros Hm Hk w.
  destruct (Hm w) as (a & w1 & E1 & Pa & D1 & W1).
  destruct (Hk a Pa w1) as (b & w2 & E2 & Qb & D2 & W2).
  exists b, w2. unfold and_then. rewrite E1.
  repeat split; try assumption; congruence.
Qed.



Lemma choice_draws (A : Type) (seq : list A) (default : A) :
  seq <> [] -> only_draws (choice randbelow seq default) (fun x => In x seq).
Proof.
  intros Hne. unfold choice.
  apply only_draws_bind
    with (P := fun k => (0 <= k < Z.of_nat (length seq))%Z).
  - apply only_draws_draw. intros g. apply Hrange.
    destruct seq; [congruence | simpl; lia].
  - intros k Hk. apply only_draws_ret. apply nth_In. lia.
Qed.










(** C10.  Whatever the arguments and the keywords left out, and whatever
    the state of the files and of the random generator,
    [generate_variations] gives what [generate_variations_improved]
    gives: the same value or the same exception, the same files, the same
    log of writes. *)
Theorem generate_variations_alias (logo_path product_path : path)
  (kw : kwargs) (w : world) :
  generate_variations randbelow random53 decode save_png save_jpeg render cwd
    logo_path product_path kw w
  = generate_variations_improved randbelow random53 decode save_png save_jpeg
      render cwd logo_path product_path kw w.
Proof.
  unfold generate_variations. destruct kw as [o c sz b p]. reflexivity.
Qed.

End Run.

(** *** On the stand-ins *)

Lemma demo_randbelow_in_range : randbelow_in_range Demo.randbelow.
Proof.
  intros k g Hk. simpl. apply Z.mod_pos_bound. exact Hk.
Qed.








End CompositorFacts.

(** ** Packaging *)

Module UtilsFacts.
Import Utils FSFacts.

Lemma keys_write (d : fs) (p : path) (n : node) :
  map fst (write d p n)
  = if exists_ d p then map fst d else map fst d ++ [p].
Proof.
  unfold exists_. induction d as [|[q m] d IH]; simpl; [reflexivity|].
  destruct (path_eqb q p) eqn:E; simpl.
  - apply path_eqb_eq in E. now subst q.
  - rewrite IH. now destruct (lookup d p).
Qed.

(** Writing outside a folder does not change its listing. *)
Lemma iterdir_write (d : fs) (folder p : path) (n : node) :
  is_child_of folder p = false ->
  iterdir (write d p n) folder = iterdir d folder.
Proof.
  intros H. unfold iterdir. rewrite keys_write.
  destruct (exists_ d p); [reflexivity|].
  rewrite filter_app. simpl. rewrite H. apply app_nil_r.
Qed.

Lemma iterdir_children (d : fs) (folder f : path) :
  In f (iterdir d folder)
  <-> In f (map fst d) /\ f <> [] /\ parent f = folder.
Proof.
  unfold iterdir. rewrite filter_In. unfold is_child_of.
  destruct f as [|x f]; [intuition congruence|].
  rewrite path_eqb_eq. intuition congruence.
Qed.

(** The loop of [create_zip]: every entry adds its member to the archive,
    and no other file changes. *)
Lemma zip_loop (d : fs) (zip_path : path) (entries : list path) :
  (forall f, In f entries -> f <> zip_path) ->
  forall (acc : fs) (ms : list (str * option content)),
    lookup acc zip_path = Some (File (Archive ms)) ->
    (forall q, q <> zip_path -> lookup acc q = lookup d q) ->
    let acc' :=
      fold_left
        (fun acc f =>
           write acc zip_path
             (File (Archive (members_at acc zip_path ++ [member_of acc f]))))
        entries acc in
    lookup acc' zip_path
    = Some (File (Archive (ms ++ map (member_of d) entries)))
    /\ (forall q, q <> zip_path -> lookup acc' q = lookup d q).
Proof.
  induction entries as [|f entries IH]; intros Hne acc ms Hz Hframe; simpl.
  - rewrite app_nil_r. auto.
  - assert (Hf : f <> zip_path) by (apply Hne; now left).
    assert (Hm : member_of acc f = member_of d f)
      by (unfold member_of; now rewrite Hframe).
    assert (Hms : members_at acc zip_path = ms)
      by (unfold members_at; now rewrite Hz).
    rewrite Hm, Hms.
    destruct (IH (fun g Hg => Hne g (or_intror Hg))
                (write acc zip_path (File (Archive (ms ++ [member_of d f]))))
                (ms ++ [member_of d f])) as [H1 H2].
    + rewrite lookup_write. now rewrite path_eqb_refl.
    + intros q Hq. rewrite lookup_write.
      destruct (path_eqb zip_path q) eqn:E; [|now apply Hframe].
      apply path_eqb_eq in E. congruence.
    + split; [|exact H2]. rewrite H1, <- app_assoc. reflexivity.
Qed.


(** What is below a subdirectory is not listed. *)
Lemma iterdir_not_recursive (d : fs) (folder : path) (a b : str) :
  ~ In (folder ++ [a; b]) (iterdir d folder).
Proof.
  rewrite iterdir_children. intros (_ & _ & H). unfold parent in H.
  change (folder ++ [a; b]) with (folder ++ [a] ++ [b]) in H.
  rewrite app_assoc, removelast_last in H.
  apply (f_equal (@length _)) in H. rewrite length_app in H. simpl in H. lia.
Qed.



End UtilsFacts.

(** ** The caption file of a request *)

Module AppFacts.
Import Compositor App.

(** The overwrite writes one line per pair of an image file and a
    caption: as many as the shorter list has, nothing is padded. *)
Lemma caption_lines_for_length (img_files : list path) (captions : list str) :
  length (caption_lines_for img_files captions)
  = Nat.min (length img_files) (length captions).
Proof.
  revert captions. induction img_files as [|f fs IH]; intros [|c cs];
    simpl; try reflexivity.
  now rewrite IH.
Qed.

(** C4, on a run.  Acme Boots with the caption adapter on and twelve
    captions from the endpoint: the caption file pairs the captions with
    the first twelve image files of the run directory in sorted order,
    which are the two encodings of creatives 01 to 06; caption [i] is not
    on the line of creative [i], and creatives 07 to 12 have no line. *)
Theorem app_captions_follow_sorted_files :
  DemoRun.captions_txt
  = Some (map (fun p => lit (fst p) ++ [TAB] ++ lit (snd p))
            [ ("creative_01.jpg", "caption 01");
              ("creative_01.png", "caption 02");
              ("creative_02.jpg", "caption 03");
              ("creative_02.png", "caption 04");
              ("creative_03.jpg", "caption 05");
              ("creative_03.png", "caption 06");
              ("creative_04.jpg", "caption 07");
              ("creative_04.png", "caption 08");
              ("creative_05.jpg", "caption 09");
              ("creative_05.png", "caption 10");
              ("creative_06.jpg", "caption 11");
              ("creative_06.png", "caption 12") ]%string)
  /\ DemoRun.captions_txt <> Some DemoRun.aligned_captions.
Proof.
  split.
  - vm_compute. reflexivity.
  - vm_compute. discriminate.
Qed.

End AppFacts.

(** * More on the caption adapter *)

Module CaptionMore.
Import CaptionAdapter CaptionFacts.

(** X1.  [_template_captions(brand, product, n)] is empty for [n <= 0];
    otherwise it has exactly [n] entries, entry [i] being template
    [i mod 5], so that the list repeats with period five. *)
Theorem template_captions_shape (brand product : str) (n : Z) :
  length (_template_captions brand product n) = Z.to_nat n
  /\ ((n <= 0)%Z -> _template_captions brand product n = [])
  /\ (forall i, (i < Z.to_nat n)%nat ->
        nth i (_template_captions brand product n) []
        = nth (i mod 5) (samples brand product) [])
  /\ (forall i, (i + 5 < Z.to_nat n)%nat ->
        nth (i + 5) (_template_captions brand product n) []
        = nth i (_template_captions brand product n) []).
Proof.
  split; [apply _template_captions_length|]. split; [|split].
  - intros Hn. pose proof (_template_captions_length brand product n) as L.
    destruct (_template_captions brand product n); [reflexivity|].
    simpl in L. lia.
  - intros i Hi. now apply _template_captions_nth.
  - intros i Hi. rewrite !_template_captions_nth by lia.
    f_equal. rewrite Nat.add_comm.
    replace (5 + i)%nat with (i + 1 * 5)%nat by lia.
    apply Nat.Div0.mod_add.
Qed.

Lemma template_captions_shape_witness :
  _template_captions (lit "Acme") (lit "Boots") (-3) = []
  /\ nth 7 (_template_captions (lit "Acme") (lit "Boots") 12) []
     = nth 2 (samples (lit "Acme") (lit "Boots")) [].
Proof.
  split.
  - apply (proj1 (proj2 (template_captions_shape (lit "Acme") (lit "Boots")
                           (-3)))).
    lia.
  - apply (proj1 (proj2 (proj2 (template_captions_shape (lit "Acme")
                                  (lit "Boots") 12))) 7).
    simpl. lia.
Defined.

Lemma seq_from (a b : nat) : seq a b = map (fun k => a + k)%nat (seq 0 b).
Proof.
  revert a. induction b as [|b IH]; intros a; [reflexivity|].
  simpl. rewrite Nat.add_0_r. f_equal.
  rewrite <- (seq_shift b 0), map_map, (IH (S a)).
  apply map_ext. intros k. lia.
Qed.

Lemma range_app (a b : Z) :
  (0 <= a)%Z -> (0 <= b)%Z ->
  range (a + b) = range a ++ map (fun i => (a + i)%Z) (range b).
Proof.
  intros Ha Hb. unfold range.
  rewrite Z2Nat.inj_add by assumption. rewrite seq_app, map_app. f_equal.
  simpl. rewrite seq_from, !map_map. apply map_ext. intros k. lia.
Qed.

(** X2.  Asking for more captions only appends: for [0 <= n <= m] the
    list for [m] is the list for [n] followed by the cycle read on from
    index [n]. *)
Theorem template_captions_extend (brand product : str) (n m : Z) :
  (0 <= n <= m)%Z ->
  _template_captions brand product m
  = _template_captions brand product n
    ++ template_cycle_from brand product n (m - n).
Proof.
  intros H. rewrite !_template_captions_cycle. unfold template_cycle_from.
  replace m with (n + (m - n))%Z at 1 by lia.
  rewrite range_app by lia. rewrite map_app, map_map. reflexivity.
Qed.

Lemma template_captions_extend_witness :
  _template_captions (lit "A") (lit "B") 7
  = _template_captions (lit "A") (lit "B") 3
    ++ template_cycle_from (lit "A") (lit "B") 3 (7 - 3).
Proof.
  apply (@template_captions_extend (lit "A") (lit "B") 3 7). lia.
Defined.

(** X3.  The adapter consults the endpoint with one request only: the
    fixed URL, the configured key, and a body made of the prompt for
    [n], [brand] and [product], 200 output tokens and temperature 0.8.
    Two endpoints that answer this request alike give the same
    captions, whatever they answer elsewhere; without a key none is
    consulted. *)
Theorem generate_captions_one_request
  (hp1 hp2 : str -> str -> payload -> result json) (repr : json -> str)
  (self : GeminiCaptionAdapter) (brand product : str) (n : Z) :
  (forall key, api_key self = Some key ->
     hp1 (url self) key
       {| prompt_text := prompt_of brand product n;
          maxOutputTokens := 200; temperature := (8, -1)%Z |}
     = hp2 (url self) key
         {| prompt_text := prompt_of brand product n;
            maxOutputTokens := 200; temperature := (8, -1)%Z |}) ->
  generate_captions hp1 repr self brand product n
  = generate_captions hp2 repr self brand product n.
Proof.
  intros H. unfold generate_captions.
  destruct (str_truthy (api_key self)); [|reflexivity]. simpl.
  unfold _call_rest.
  destruct (api_key self) as [[|c key]|]; try reflexivity.
  now rewrite (H (c :: key) eq_refl).
Qed.

Lemma generate_captions_one_request_witness :
  generate_captions Demo.one_caption Demo.repr Demo.with_key
    (lit "Acme") (lit "Boots") 2
  = generate_captions Demo.picky Demo.repr Demo.with_key
      (lit "Acme") (lit "Boots") 2.
Proof.
  apply (@generate_captions_one_request Demo.one_caption Demo.picky
           Demo.repr Demo.with_key (lit "Acme") (lit "Boots") 2).
  intros key _. reflexivity.
Defined.

(** X4.  Whatever goes wrong in [_call_rest] comes out as a
    [RuntimeError]: "No GEMINI_API_KEY available" when no key is
    configured (the endpoint is then not consulted), and otherwise
    "Generative REST call failed: " followed by the text of the
    exception that the request raised. *)
Theorem _call_rest_errors
  (http_post : str -> str -> payload -> result json)
  (self : GeminiCaptionAdapter) (prompt : str) (max_tokens : Z) (e : exn) :
  _call_rest http_post self prompt max_tokens = Raise e ->
  (str_truthy (api_key self) = false
   /\ e = RuntimeError (lit "No GEMINI_API_KEY available"))
  \/ (exists key cause,
        api_key self = Some key /\ str_truthy (api_key self) = true
        /\ http_post (url self) key
             {| prompt_text := prompt; maxOutputTokens := max_tokens;
                temperature := (8, -1)%Z |} = Raise cause
        /\ e = RuntimeError
                 (lit "Generative REST call failed: " ++ exn_str cause)).
Proof.
  unfold _call_rest. intros H.
  destruct (api_key self) as [[|c key]|] eqn:K; cbv beta iota in H.
  - left. split; [reflexivity | congruence].
  - right. exists (c :: key).
    destruct (http_post (url self) (c :: key) _) as [d|cause] eqn:P;
      unfold try_except in H; [discriminate|].
    exists cause. repeat split; congruence.
  - left. split; [reflexivity | congruence].
Qed.

Lemma _call_rest_errors_witness :
  (str_truthy (api_key Demo.with_key) = false
   /\ RuntimeError (lit "Generative REST call failed: timed out")
      = RuntimeError (lit "No GEMINI_API_KEY available"))
  \/ (exists key cause,
        api_key Demo.with_key = Some key
        /\ str_truthy (api_key Demo.with_key) = true
        /\ Demo.down (url Demo.with_key) key
             {| prompt_text := lit "hello"; maxOutputTokens := 200;
                temperature := (8, -1)%Z |} = Raise cause
        /\ RuntimeError (lit "Generative REST call failed: timed out")
           = RuntimeError
               (lit "Generative REST call failed: " ++ exn_str cause)).
Proof.
  apply (@_call_rest_errors Demo.down Demo.with_key (lit "hello") 200
           (RuntimeError (lit "Generative REST call failed: timed out"))).
  reflexivity.
Defined.

(** X5.  [_extract_text_from_response] gives up ([None]) exactly on the
    payloads that Python counts as false ([None], [False], zero, the
    empty string, list or dict); every other payload yields a text, in
    the last resort its [str]. *)
Theorem extract_none_iff_falsy (repr : json -> str) (data : json) :
  _extract_text_from_response repr data = None <-> truthy data = false.
Proof.
  unfold _extract_text_from_response.
  destruct (truthy data) eqn:T; simpl; split; try congruence; intros H.
  exfalso. destruct data; try discriminate.
  unfold or_else in H.
  repeat match type of H with
         | match ?x with _ => _ end = None => destruct x; try discriminate
         end.
Qed.

(** *** What a caption line looks like *)

Lemma lstrip_by_head (p : char -> bool) (s : str) (x : char) (t : str) :
  lstrip_by p s = x :: t -> p x = false.
Proof.
  induction s as [|c s IH]; simpl; [discriminate|].
  destruct (p c) eqn:E; [exact IH|]. intros [= <- _]. exact E.
Qed.

Lemma lstrip_by_incl (p : char -> bool) (s : str) (c : char) :
  In c (lstrip_by p s) -> In c s.
Proof.
  destruct (lstrip_by_suffix p s) as [pre [E _]]. intros H.
  rewrite E. apply in_or_app. now right.
Qed.

Lemma rstrip_by_prefix (p : char -> bool) (s : str) :
  exists suf, s = rstrip_by p s ++ suf.
Proof.
  unfold rstrip_by. destruct (lstrip_by_suffix p (rev s)) as [pre [E _]].
  exists (rev pre). rewrite <- rev_app_distr, <- E. now rewrite rev_involutive.
Qed.

Lemma strip_by_incl (p : char -> bool) (s : str) (c : char) :
  In c (strip_by p s) -> In c s.
Proof.
  unfold strip_by. intros H. apply (lstrip_by_incl p).
  destruct (rstrip_by_prefix p (lstrip_by p s)) as [suf E].
  rewrite E. apply in_or_app. now left.
Qed.

(** What [strip] leaves neither starts nor ends with a stripped
    character. *)
Lemma strip_by_ends (p : char -> bool) (s : str) :
  strip_by p s <> [] ->
  p (hd 0%N (strip_by p s)) = false /\ p (last (strip_by p s) 0%N) = false.
Proof.
  unfold strip_by. intros Hne. split.
  - destruct (rstrip_by_prefix p (lstrip_by p s)) as [suf E].
    destruct (rstrip_by p (lstrip_by p s)) as [|x r]; [congruence|].
    simpl. simpl in E. now apply (lstrip_by_head p s E).
  - unfold rstrip_by in *.
    destruct (lstrip_by p (rev (lstrip_by p s))) as [|x t] eqn:E;
      [simpl in Hne; congruence|].
    simpl. rewrite last_last. now apply (lstrip_by_head p _ E).
Qed.

Lemma splitlines_no_break (s cur piece : str) :
  no_linebreak cur -> In piece (splitlines_from cur s) -> no_linebreak piece.
Proof.
  revert cur. induction s as [|c rest IH]; intros cur Hcur Hin.
  - simpl in Hin. destruct cur as [|x cur']; [destruct Hin|].
    destruct Hin as [<- | []]. intros y Hy. apply Hcur. now apply in_rev.
  - assert (Hrev : no_linebreak (rev cur))
      by (intros y Hy; apply Hcur; now apply in_rev).
    assert (Hnil : no_linebreak []) by (intros y []).
    simpl in Hin. destruct (char_eqb c CR) eqn:Hcr.
    + destruct rest as [|c' rest'].
      * destruct Hin as [<- | Hin]; [exact Hrev | destruct Hin].
      * destruct (char_eqb c' LF) eqn:Hlf.
        -- destruct Hin as [<- | Hin]; [exact Hrev|].
           apply (IH [] Hnil). apply N.eqb_eq in Hlf. subst c'.
           simpl. now right.
        -- destruct Hin as [<- | Hin]; [exact Hrev|]. now apply (IH [] Hnil).
    + destruct (islinebreak c) eqn:Hlb.
      * destruct Hin as [<- | Hin]; [exact Hrev|]. now apply (IH [] Hnil).
      * apply (IH (c :: cur)); [|exact Hin].
        intros y [<- | Hy]; [exact Hlb | now apply Hcur].
Qed.

(** X6.  Every caption line cut out of a response text is one line (no
    line boundary inside) and, when it is not empty, neither starts nor
    ends with a blank, a hyphen, a bullet, a tab, a carriage return or
    a line feed. *)
Theorem caption_lines_clean (text l : str) :
  In l (caption_lines text) ->
  no_linebreak l
  /\ (l <> [] ->
      mem (hd 0%N l) bullet_chars = false
      /\ mem (last l 0%N) bullet_chars = false).
Proof.
  unfold caption_lines. rewrite in_map_iff.
  intros (raw & <- & Hraw). apply filter_In in Hraw. destruct Hraw as [Hraw _].
  split.
  - intros c Hc. unfold strip_chars in Hc. apply strip_by_incl in Hc.
    revert c Hc. apply (@splitlines_no_break text [] raw); [intros y []|].
    exact Hraw.
  - intros Hne.
    exact (@strip_by_ends (fun c => mem c bullet_chars) raw Hne).
Qed.

Lemma caption_lines_clean_witness :
  no_linebreak (lit "Two")
  /\ (lit "Two" <> [] ->
      mem (hd 0%N (lit "Two")) bullet_chars = false
      /\ mem (last (lit "Two") 0%N) bullet_chars = false).
Proof.
  apply (@caption_lines_clean
           (lit "- One" ++ [LF] ++ lit " - " ++ [BULLET] ++ lit " Two -" ++ [CR; LF])
           (lit "Two")).
  vm_compute. right. left. reflexivity.
Defined.

(** X7.  The sentence fallback is dead code: whenever the split into
    lines finds no caption, cutting the same text at [\], [.], [!], [;]
    and [n] finds none either, so such a text is answered with
    templates only. *)
Theorem sentence_fallback_finds_nothing (text : str) :
  caption_lines text = [] -> sentence_pieces text = [].
Proof.
  apply sentence_pieces_dead.
Qed.

Lemma sentence_fallback_finds_nothing_witness :
  sentence_pieces (lit "  " ++ [LF; TAB] ++ lit " ") = [].
Proof.
  apply (@sentence_fallback_finds_nothing (lit "  " ++ [LF; TAB] ++ lit " ")).
  reflexivity.
Defined.

(** X8.  The adapter works without the endpoint exactly when the key
    passed to the constructor and the variables [GEMINI_API_KEY] and
    [GOOGLE_API_KEY] are all unset or empty; otherwise its key is the
    first of these three that is not. *)
Theorem adapter_key_sources (environ : str -> option str) (key : option str) :
  let self := __init__ environ key in
  (str_truthy (api_key self) = false <->
   str_truthy key = false
   /\ str_truthy (environ (lit "GEMINI_API_KEY")) = false
   /\ str_truthy (environ (lit "GOOGLE_API_KEY")) = false)
  /\ (str_truthy key = true -> api_key self = key)
  /\ (str_truthy key = false ->
      str_truthy (environ (lit "GEMINI_API_KEY")) = true ->
      api_key self = environ (lit "GEMINI_API_KEY"))
  /\ (str_truthy key = false ->
      str_truthy (environ (lit "GEMINI_API_KEY")) = false ->
      api_key self = environ (lit "GOOGLE_API_KEY")).
Proof.
  unfold __init__, GEMINI_API_KEY, py_or. cbn [api_key].
  destruct (str_truthy key) eqn:K;
    destruct (str_truthy (environ (lit "GEMINI_API_KEY"))) eqn:G;
    destruct (str_truthy (environ (lit "GOOGLE_API_KEY"))) eqn:O;
    rewrite ?K, ?G, ?O; repeat split; intros; try congruence; tauto.
Qed.


Lemma adapter_key_sources_witness :
  api_key (__init__ DemoRun.environ None) = Some (lit "k").
Proof.
  apply (proj1 (proj2 (proj2 (@adapter_key_sources DemoRun.environ None)))).
  - reflexivity.
  - reflexivity.
Defined.

End CaptionMore.

(** * More on the compositor *)

Module CompositorMore.
Import Compositor NameFacts FSFacts CompositorFacts.

Lemma lookup_mkdir_parents_none (d : fs) (q p : path) :
  lookup d p = None -> (forall k, firstn k q <> p) ->
  lookup (mkdir_parents d q) p = None.
Proof.
  unfold mkdir_parents. generalize (seq 1 (length q)). intros ks.
  revert d. induction ks as [|k ks IH]; intros d H Hk; simpl; [exact H|].
  apply IH; [|exact Hk].
  destruct (exists_ d (firstn k q)); [exact H|].
  rewrite lookup_write. destruct (path_eqb (firstn k q) p) eqn:E; [|exact H].
  apply path_eqb_eq in E. now destruct (Hk k).
Qed.

Section Run.

Variable rng : Type.
Variable randbelow : Z -> rng -> Z * rng.
Variable random53 : rng -> Z * rng.
Variable decode : list Byte.byte -> option Image.
Variable save_png : Image -> list Byte.byte.
Variable save_jpeg : Z -> Image -> list Byte.byte.
Variable render : Image -> Image -> Z -> str -> str -> cosmetics -> result Image.
Variable cwd : path.

Local Abbreviation world := (world rng).
Local Abbreviation generate_variations_improved :=
  (generate_variations_improved randbelow random53 decode save_png save_jpeg
     render cwd).

(** X9.  The inputs are checked before anything is opened or drawn, the
    logo first: a logo path that does not exist gives
    [FileNotFoundError("Logo not found: ...")] whatever the product path
    is, and with the logo in place a product path that does not exist
    gives [FileNotFoundError("Product image not found: ...")].  (A path
    that is the output directory or one of its ancestors exists once
    [ensure_dir] has run.) *)
Theorem missing_input_raises (logo_path product_path : path) (kw : kwargs)
  (w : world) :
  let dir := or_default (out_dir kw) (child cwd (lit "output")) in
  (lookup (disk w) logo_path = None ->
   (forall k, firstn k dir <> logo_path) ->
   generate_variations_improved logo_path product_path kw w
   = Raise (FileNotFoundError
              (lit "Logo not found: " ++ join (lit "/") logo_path)))
  /\ (lookup (disk w) logo_path <> None ->
      lookup (disk w) product_path = None ->
      (forall k, firstn k dir <> product_path) ->
      generate_variations_improved logo_path product_path kw w
      = Raise (FileNotFoundError
                 (lit "Product image not found: "
                  ++ join (lit "/") product_path))).
Proof.
  intros dir. unfold Compositor.generate_variations_improved. fold dir.
  unfold ensure_dir, on_disk, read_disk. cbn [and_then disk]. unfold exists_.
  split.
  - intros Hl Hk.
    pose proof (@lookup_mkdir_parents_none _ dir _ Hl Hk) as Hl'.
    rewrite Hl'. reflexivity.
  - intros Hl Hp Hk.
    destruct (lookup (disk w) logo_path) as [x|] eqn:El; [|congruence].
    pose proof (@lookup_mkdir_parents _ dir _ _ El) as Hl'.
    pose proof (@lookup_mkdir_parents_none _ dir _ Hp Hk) as Hp'.
    rewrite Hl', Hp'. reflexivity.
Qed.



Hypothesis Hrange : randbelow_in_range randbelow.


Lemma randint_in_range (a b : Z) :
  (a <= b)%Z ->
  only_draws (randint randbelow a b) (fun k => (a <= k <= b)%Z).
Proof.
  intros Hab. unfold randint.
  apply only_draws_bind with (P := fun k => (0 <= k < b - a + 1)%Z).
  - apply only_draws_draw. intros g. apply Hrange. lia.
  - intros k Hk. apply only_draws_ret. lia.
Qed.

(** X23.  What is drawn at random for a creative stays in its range,
    and drawing it writes no file: both gradient colours are valid
    colours (every component of the first is between 245 and 255, of the
    second between 227 and 255), the bloom centre is moved by at most 60
    and 40 pixels, the product by at most 20 each way, and the headline,
    the sub-line and the badge text come from their fixed pools. *)
Theorem cosmetics_in_range (brand_name product_name : str) :
  let comps (c : Z * Z * Z) := [fst (fst c); snd (fst c); snd c] in
  only_draws (draw_cosmetics randbelow random53 brand_name product_name)
    (fun look =>
       In (base_a look) base_colours
       /\ Forall (fun v => (245 <= v <= 255)%Z) (comps (base_a look))
       /\ Forall (fun v => (227 <= v <= 255)%Z) (comps (base_b look))
       /\ (-60 <= fst (centre_jitter look) <= 60)%Z
       /\ (-40 <= snd (centre_jitter look) <= 40)%Z
       /\ (-20 <= fst (place_jitter look) <= 20)%Z
       /\ (-20 <= snd (place_jitter look) <= 20)%Z
       /\ In (headline look) (headline_templates brand_name product_name)
       /\ In (sub look) (sub_templates brand_name)
       /\ match badge_text look with
          | Some t => In t badge_texts
          | None => True
          end).
Proof.
  intros comps. unfold draw_cosmetics.
  eapply only_draws_bind;
    [apply (choice_draws Hrange (0, 0, 0)%Z (seq := base_colours)
              ltac:(discriminate))|].
  intros [[a0 a1] a2] Ha.
  assert (Hcomps : (245 <= a0 <= 255 /\ 245 <= a1 <= 255
                    /\ 245 <= a2 <= 255)%Z).
  { unfold base_colours in Ha.
    repeat (destruct Ha as [Ha | Ha]; [injection Ha as <- <- <-; lia|]).
    destruct Ha. }
  do 3 (eapply only_draws_bind;
        [apply (@randint_in_range (-18) 30); lia | intros ? ?]).
  eapply only_draws_bind;
    [apply (@randint_in_range (-60) 60); lia | intros cx Hcx].
  eapply only_draws_bind;
    [apply (@randint_in_range (-40) 40); lia | intros cy Hcy].
  eapply only_draws_bind;
    [apply (@randint_in_range (-20) 20); lia | intros jx Hjx].
  eapply only_draws_bind;
    [apply (@randint_in_range (-20) 20); lia | intros jy Hjy].
  eapply only_draws_bind;
    [apply (choice_draws Hrange []
              (seq := headline_templates brand_name product_name)
              ltac:(discriminate))|].
  intros hl Hhl.
  eapply only_draws_bind;
    [apply (choice_draws Hrange [] (seq := sub_templates brand_name)
              ltac:(discriminate))|].
  intros sb Hsb.
  eapply only_draws_bind with (P := fun _ => True);
    [now apply only_draws_draw|].
  intros r _.
  eapply only_draws_bind
    with (P := fun badge => match badge with
                            | Some t => In t badge_texts
                            | None => True
                            end).
  - destruct (r <? 2 ^ 52)%Z; [|now apply only_draws_ret].
    eapply only_draws_bind;
      [apply (choice_draws Hrange [] (seq := badge_texts)
                ltac:(discriminate))|].
    intros t Ht. now apply only_draws_ret.
  - intros badge Hb. apply only_draws_ret.
    cbn [base_a base_b centre_jitter place_jitter headline sub badge_text
           fst snd comps].
    cbv beta in *.
    assert (Hcol : forall lo (x y z : Z),
               (lo <= x <= 255 /\ lo <= y <= 255 /\ lo <= z <= 255)%Z ->
               Forall (fun v => (lo <= v <= 255)%Z) [x; y; z]).
    { intros lo x y z (Hx & Hy & Hz). now repeat constructor. }
    split; [exact Ha|]. split; [apply Hcol; cbn [fst snd]; lia|].
    split; [apply Hcol; cbn [fst snd]; lia|].
    repeat (split; [assumption || lia|]). exact Hb.
Qed.

End Run.

(** *** On the stand-ins *)

Lemma not_under_out (p : path) :
  length p = 2 -> forall k, firstn k [lit "out"] <> p.
Proof.
  intros Hp k E. apply (f_equal (@length _)) in E.
  rewrite length_firstn, Hp in E. simpl in E. lia.
Qed.

Lemma missing_input_raises_witness :
  generate_variations_improved Demo.randbelow Demo.random53 Demo.decode
    Demo.save_png Demo.save_jpeg Demo.render Demo.cwd Demo.no_path
    Demo.no_path (Demo.kw 3 (lit "Acme") (lit "Boots")) Demo.world0
  = Raise (FileNotFoundError (lit "Logo not found: in/none.png"))
  /\ generate_variations_improved Demo.randbelow Demo.random53 Demo.decode
       Demo.save_png Demo.save_jpeg Demo.render Demo.cwd Demo.logo_path
       Demo.no_path (Demo.kw 3 (lit "Acme") (lit "Boots")) Demo.world0
     = Raise (FileNotFoundError (lit "Product image not found: in/none.png")).
Proof.
  split.
  - apply (proj1 (@missing_input_raises nat Demo.randbelow Demo.random53
                    Demo.decode Demo.save_png Demo.save_jpeg Demo.render
                    Demo.cwd Demo.no_path Demo.no_path
                    (Demo.kw 3 (lit "Acme") (lit "Boots")) Demo.world0)).
    + reflexivity.
    + now apply not_under_out.
  - apply (proj2 (@missing_input_raises nat Demo.randbelow Demo.random53
                    Demo.decode Demo.save_png Demo.save_jpeg Demo.render
                    Demo.cwd Demo.logo_path Demo.no_path
                    (Demo.kw 3 (lit "Acme") (lit "Boots")) Demo.world0)).
    + discriminate.
    + reflexivity.
    + now apply not_under_out.
Defined.





Lemma cosmetics_in_range_witness :
  exists look w',
    draw_cosmetics Demo.randbelow Demo.random53 (lit "Acme") (lit "Boots")
      Demo.world0 = Ok (look, w')
    /\ In (headline look) (headline_templates (lit "Acme") (lit "Boots"))
    /\ disk w' = disk Demo.world0.
Proof.
  destruct (@cosmetics_in_range nat Demo.randbelow Demo.random53
              demo_randbelow_in_range (lit "Acme") (lit "Boots") Demo.world0)
    as (look & w' & E & H & D & _).
  exists look, w'. split; [exact E|]. split; [|exact D].
  apply H.
Defined.

End CompositorMore.

(** * More on the subject crop *)

Module AutocropMore.
Import Autocrop AutocropFacts.

Lemma bbox_of_full (w h : nat) (f : nat -> nat -> bool) :
  (exists y, y < h /\ f 0 y = true) ->
  (exists y, y < h /\ f (w - 1) y = true) ->
  (exists x, x < w /\ f x 0 = true) ->
  (exists x, x < w /\ f x (h - 1) = true) ->
  bbox_of w h f = Some (0, 0, w, h).
Proof.
  intros (y0 & Hy0 & F0) (y1 & Hy1 & F1) (x0 & Hx0 & G0) (x1 & Hx1 & G1).
  destruct (@bbox_of_some w h f) as [[[[l u] r] d] Hb].
  { exists 0, y0. repeat split; [lia | assumption | assumption]. }
  pose proof (bbox_of_tight _ _ _ Hb) as T. unfold tight_box in T.
  destruct T as (Hlr & Hud & Henc & _).
  destruct (Henc 0 y0 ltac:(lia) Hy0 F0) as [A _].
  destruct (Henc (w - 1) y1 ltac:(lia) Hy1 F1) as [B _].
  destruct (Henc x0 0 Hx0 ltac:(lia) G0) as [_ C].
  destruct (Henc x1 (h - 1) Hx1 ltac:(lia) G1) as [_ D].
  rewrite Hb. repeat f_equal; lia.
Qed.

(** X13.  The crop never grows the image and never empties it: the
    result is at most as wide and as high as the input, and an input
    with at least one pixel gives a result with at least one pixel. *)
Theorem autocrop_within (img : Image) (threshold : Z) :
  width (_autocrop_to_subject img threshold) <= width img
  /\ height (_autocrop_to_subject img threshold) <= height img
  /\ (0 < width img -> 0 < height img ->
      0 < width (_autocrop_to_subject img threshold)
      /\ 0 < height (_autocrop_to_subject img threshold)).
Proof.
  assert (Hbox : forall f b,
             bbox_of (width img) (height img) f = Some b ->
             width (crop img b) <= width img
             /\ height (crop img b) <= height img
             /\ 0 < width (crop img b) /\ 0 < height (crop img b)).
  { intros f [[[l u] r] d] Hb. apply bbox_of_tight in Hb.
    unfold tight_box in Hb. destruct Hb as (Hlr & Hud & _).
    unfold crop. cbn [width height]. lia. }
  assert (Hlum : width (luminance_crop img threshold) <= width img
                 /\ height (luminance_crop img threshold) <= height img
                 /\ (0 < width img -> 0 < height img ->
                     0 < width (luminance_crop img threshold)
                     /\ 0 < height (luminance_crop img threshold))).
  { unfold luminance_crop. rewrite getbbox_mask.
    destruct (bbox_of _ _ (subject_at img threshold)) as [b|] eqn:E.
    - destruct (Hbox _ _ E) as (A & B & C & D). auto.
    - destruct (center_box_square img) as [-> ->]. lia. }
  unfold _autocrop_to_subject.
  destruct (mode_of img); try exact Hlum.
  rewrite getbbox_alpha.
  destruct (bbox_of _ _ (opaque_at img)) as [b|] eqn:E; [|exact Hlum].
  destruct (Hbox _ _ E) as (A & B & C & D). auto.
Qed.



(** X15.  Cropping twice changes nothing more: on an RGBA image with a
    pixel that is not transparent, the crop of the crop is the crop,
    as large and pixel for pixel. *)
Theorem autocrop_idempotent (img : Image) (threshold : Z) :
  mode_of img = RGBA ->
  (exists x y, x < width img /\ y < height img /\ opaque_at img x y = true) ->
  let once := _autocrop_to_subject img threshold in
  let twice := _autocrop_to_subject once threshold in
  width twice = width once /\ height twice = height once
  /\ forall x y, getpixel twice x y = getpixel once x y.
Proof.
  intros Hm Hop once twice.
  destruct (@bbox_of_some (width img) (height img) (opaque_at img) Hop)
    as [[[[l u] r] d] Hb].
  pose proof (bbox_of_tight _ _ _ Hb) as T.
  assert (E : _autocrop_to_subject img threshold = crop img (l, u, r, d)).
  { unfold _autocrop_to_subject. now rewrite Hm, getbbox_alpha, Hb. }
  unfold tight_box in T.
  destruct T as (Hlr & Hud & Henc & (ya & Hya & Fa) & (yb & Hyb & Fb)
                 & (xa & Hxa & Ga) & (xb & Hxb & Gb)).
  assert (Hm1 : mode_of once = RGBA) by (unfold once; rewrite E; exact Hm).
  assert (Hw1 : width once = r - l) by (unfold once; now rewrite E).
  assert (Hh1 : height once = d - u) by (unfold once; now rewrite E).
  assert (Hpx : forall x y, opaque_at once x y = opaque_at img (l + x) (u + y))
    by (intros x y; unfold once; now rewrite E).
  assert (E2 : twice = crop once (0, 0, width once, height once)).
  { unfold twice, _autocrop_to_subject. rewrite Hm1, getbbox_alpha.
    rewrite (@bbox_of_full (width once) (height once) (opaque_at once));
      [reflexivity | | | | ].
    - destruct (Henc l ya ltac:(lia) Hya Fa) as [_ B].
      exists (ya - u). rewrite Hpx, Hh1. split; [lia|].
      replace (l + 0) with l by lia. replace (u + (ya - u)) with ya by lia.
      exact Fa.
    - destruct (Henc (r - 1) yb ltac:(lia) Hyb Fb) as [_ B].
      exists (yb - u). rewrite Hpx, Hh1, Hw1. split; [lia|].
      replace (l + (r - l - 1)) with (r - 1) by lia.
      replace (u + (yb - u)) with yb by lia. exact Fb.
    - destruct (Henc xa u Hxa ltac:(lia) Ga) as [A _].
      exists (xa - l). rewrite Hpx, Hw1. split; [lia|].
      replace (l + (xa - l)) with xa by lia. replace (u + 0) with u by lia.
      exact Ga.
    - destruct (Henc xb (d - 1) Hxb ltac:(lia) Gb) as [A _].
      exists (xb - l). rewrite Hpx, Hw1, Hh1. split; [lia|].
      replace (l + (xb - l)) with xb by lia.
      replace (u + (d - u - 1)) with (d - 1) by lia. exact Gb. }
  rewrite E2. unfold crop. cbn [width height getpixel].
  repeat split; try lia. 
Qed.

Lemma autocrop_idempotent_witness :
  let once := _autocrop_to_subject Demo.dot_3x3 10 in
  let twice := _autocrop_to_subject once 10 in
  width twice = width once /\ height twice = height once
  /\ forall x y, getpixel twice x y = getpixel once x y.
Proof.
  apply (@autocrop_idempotent Demo.dot_3x3 10).
  - reflexivity.
  - exists 1, 1. repeat split; simpl; lia.
Defined.

Lemma autocrop_within_witness :
  0 < width (_autocrop_to_subject Demo.dot_3x3 10)
  /\ 0 < height (_autocrop_to_subject Demo.dot_3x3 10).
Proof.
  apply (proj2 (proj2 (autocrop_within Demo.dot_3x3 10))); simpl; lia.
Defined.

End AutocropMore.

(** * More on files and archives *)

Module UtilsMore.
Import Utils FSFacts UtilsFacts.



Lemma parent_child (dir : path) (nm : str) : parent (child dir nm) = dir.
Proof. unfold parent, child. apply removelast_last. Qed.


Lemma child_inj (dir : path) (a b : str) : child dir a = child dir b -> a = b.
Proof. intros H. now apply app_inj_tail in H. Qed.


Lemma iterdir_write_old (d : fs) (folder p : path) (n : node) :
  exists_ d p = true -> iterdir (write d p n) folder = iterdir d folder.
Proof.
  intros H. unfold iterdir. now rewrite keys_write, H.
Qed.





(** The loop of [create_zip], wherever the archive stands: it stays an
    archive, gains one member per entry, named after the entry, and no
    other file changes. *)
Lemma zip_loop_names (d : fs) (zip_path : path) (entries : list path) :
  (exists c, lookup d zip_path = Some (File c)) ->
  forall (acc : fs) (ms : list (str * option content)),
    lookup acc zip_path = Some (File (Archive ms)) ->
    (forall q, q <> zip_path -> lookup acc q = lookup d q) ->
    let acc' :=
      fold_left
        (fun acc f =>
           write acc zip_path
             (File (Archive (members_at acc zip_path ++ [member_of acc f]))))
        entries acc in
    exists ms',
      lookup acc' zip_path = Some (File (Archive ms'))
      /\ map fst ms' = map fst ms ++ map (fun f => fst (member_of d f)) entries
      /\ (forall q, q <> zip_path -> lookup acc' q = lookup d q).
Proof.
  intros [c0 Hc0].
  induction entries as [|f entries IH]; intros acc ms Hz Hframe; simpl.
  - exists ms. rewrite app_nil_r. auto.
  - assert (Hm : fst (member_of acc f) = fst (member_of d f)).
    { unfold member_of. destruct (path_eqb zip_path f) eqn:E.
      - apply path_eqb_eq in E. subst f. now rewrite Hz, Hc0.
      - rewrite Hframe; [reflexivity|]. intros ->.
        now rewrite path_eqb_refl in E. }
    assert (Hms : members_at acc zip_path = ms)
      by (unfold members_at; now rewrite Hz).
    rewrite Hms.
    destruct (IH (write acc zip_path (File (Archive (ms ++ [member_of acc f]))))
                (ms ++ [member_of acc f])) as (ms' & H1 & H2 & H3).
    + rewrite lookup_write. now rewrite path_eqb_refl.
    + intros q Hq. rewrite lookup_write.
      destruct (path_eqb zip_path q) eqn:E; [|now apply Hframe].
      apply path_eqb_eq in E. congruence.
    + exists ms'. split; [exact H1|]. split; [|exact H3].
      rewrite H2, map_app, <- app_assoc. simpl. now rewrite Hm.
Qed.



(** A folder of files, zipped to a place outside it. *)
Lemma create_zip_of_files (d : fs) (folder zip_path : path)
  (files : list (path * content)) :
  lookup d folder = Some Dir ->
  is_child_of folder zip_path = false ->
  zip_path <> folder ->
  iterdir d folder = map fst files ->
  (forall p c, In (p, c) files -> lookup d p = Some (File c)) ->
  exists d',
    create_zip d folder zip_path = Ok (zip_path, d')
    /\ members_at d' zip_path
       = map (fun pc => (name (fst pc), Some (snd pc))) files.
Proof.
  intros Hdir Hout Hne Hls Hfiles. unfold create_zip.
  assert (Hfolder : lookup (write d zip_path (File (Archive []))) folder
                    = Some Dir).
  { rewrite lookup_write. destruct (path_eqb zip_path folder) eqn:E;
      [apply path_eqb_eq in E; congruence | exact Hdir]. }
  rewrite Hfolder, (@iterdir_write d folder zip_path (File (Archive [])) Hout).
  assert (Hentries : forall f, In f (iterdir d folder) -> f <> zip_path).
  { intros f Hf ->. unfold iterdir in Hf. apply filter_In in Hf.
    destruct Hf as [_ Hf]. congruence. }
  destruct (@zip_loop d zip_path (iterdir d folder) Hentries
              (write d zip_path (File (Archive []))) []) as [H1 _].
  - rewrite lookup_write. now rewrite path_eqb_refl.
  - intros q Hq. rewrite lookup_write.
    destruct (path_eqb zip_path q) eqn:E; [|reflexivity].
    apply path_eqb_eq in E. congruence.
  - eexists. split; [reflexivity|].
    unfold members_at at 1. rewrite H1, Hls. cbn [app].
    rewrite map_map. apply map_ext_in. intros [q c] Hq.
    unfold member_of. cbn [fst snd]. now rewrite (Hfiles q c Hq).
Qed.


End UtilsMore.

(** * More on the request *)

Module AppMore.
Import CaptionAdapter Compositor App Utils NameFacts FSFacts CompositorFacts
  UtilsFacts UtilsMore.

(** The last dot cuts a name into a stem and an extension without dot. *)
Lemma rfind_dot_cut (s : str) :
  match rfind_dot s with
  | Some i =>
      s = firstn i s ++ [46%N] ++ skipn (S i) s
      /\ ~ In 46%N (skipn (S i) s)
  | None => ~ In 46%N s
  end.
Proof.
  induction s as [|c s IH]; simpl; [tauto|].
  destruct (rfind_dot s) as [i|].
  - destruct IH as [E Hn]. simpl. split; [f_equal; exact E | exact Hn].
  - unfold char_eqb. destruct (N.eqb_spec c 46%N) as [-> | Hc].
    + simpl. split; [reflexivity | exact IH].
    + intros [H | H]; [congruence | tauto].
Qed.

Lemma rfind_dot_last (stem ext : str) :
  ~ In 46%N ext -> rfind_dot (stem ++ [46%N] ++ ext) = Some (length stem).
Proof.
  intros Hn.
  assert (He : rfind_dot ext = None).
  { pose proof (rfind_dot_cut ext) as H.
    destruct (rfind_dot ext) as [i|]; [|reflexivity].
    destruct H as [E _]. exfalso. apply Hn. rewrite E.
    apply in_or_app. right. now left. }
  induction stem as [|c stem IH]; simpl.
  - now rewrite He.
  - simpl in IH. now rewrite IH.
Qed.

(** X16.  A file name is allowed exactly when what follows its last dot
    is [png], [jpg] or [jpeg] in any mix of upper and lower case; what
    stands before that dot does not count, and may be empty. *)
Theorem allowed_iff (filename : str) :
  allowed filename = true
  <-> exists stem ext,
        filename = stem ++ lit "." ++ ext
        /\ ~ In 46%N ext
        /\ In (lower ext) ALLOWED_EXT.
Proof.
  assert (Hex : forall ext,
             existsb (str_eqb (lower ext)) ALLOWED_EXT = true
             <-> In (lower ext) ALLOWED_EXT).
  { intros ext. rewrite existsb_exists. split.
    - intros (x & Hx & E). apply str_eqb_eq in E. now rewrite E.
    - intros H. exists (lower ext). split; [exact H | now apply str_eqb_eq]. }
  unfold allowed, after_last_dot. split.
  - pose proof (rfind_dot_cut filename) as H.
    destruct (rfind_dot filename) as [i|]; [|discriminate].
    destruct H as [E Hn]. intros Ha.
    exists (firstn i filename), (skipn (S i) filename).
    split; [exact E|]. split; [exact Hn | now apply Hex].
  - intros (stem & ext & -> & Hn & Hin).
    assert (Hr : rfind_dot (stem ++ lit "." ++ ext) = Some (length stem))
      by exact (@rfind_dot_last stem ext Hn).
    rewrite Hr.
    assert (Hs : skipn (S (length stem)) (stem ++ lit "." ++ ext) = ext).
    { clear. induction stem as [|c stem IH]; [reflexivity | exact IH]. }
    rewrite Hs. now apply Hex.
Qed.

(** *** The image files of a run directory, sorted *)










Section Generate.

Variable rng : Type.
Variable randbelow : Z -> rng -> Z * rng.
Variable random53 : rng -> Z * rng.
Variable decode : list Byte.byte -> option Image.
Variable save_png : Image -> list Byte.byte.
Variable save_jpeg : Z -> Image -> list Byte.byte.
Variable render : Image -> Image -> Z -> str -> str -> cosmetics -> result Image.
Variable cwd : path.
Variable http_post : str -> str -> payload -> result json.
Variable repr : json -> str.
Variable secure_filename : str -> str.
Variable environ : str -> option str.
Variable BASE_DIR : path.
Variable image_step : str -> path -> fs -> fs.

Local Abbreviation world := (world rng).
Local Abbreviation generate :=
  (generate randbelow random53 decode save_png save_jpeg render cwd
     http_post repr secure_filename environ BASE_DIR image_step).
Local Abbreviation RUNS := (RUNS BASE_DIR).

(** X17.  A request that lacks one of the two uploads, or names one with
    an empty file name, is answered with the redirect that asks for both
    images; with both there, a file name that is not allowed gives the
    redirect that lists the allowed types.  Neither makes a directory,
    stores a file or draws a random number. *)
Theorem generate_rejects (req : request) (run_id : str) (w : world) :
  (present (file_logo req) && present (file_product req) = false ->
   generate req run_id w
   = (Redirect (lit "Please upload both logo and product images."), w))
  /\ (forall logo_file product_file,
        file_logo req = Some logo_file ->
        file_product req = Some product_file ->
        present (file_logo req) && present (file_product req) = true ->
        allowed (filename logo_file) && allowed (filename product_file)
        = false ->
        generate req run_id w
        = (Redirect (lit "Allowed file types: png, jpg, jpeg"), w)).
Proof.
  unfold App.generate. split.
  - intros H. destruct (file_logo req) as [l|]; [|reflexivity].
    destruct (file_product req) as [p|]; [|reflexivity].
    now rewrite H.
  - intros l p -> -> Hp Ha. now rewrite Hp, Ha.
Qed.





Hypothesis Hrange : randbelow_in_range randbelow.








(** X22.  An archive is only ever sent for a request with two uploads
    whose names are allowed; it is the file [runs/<run_id>.zip], which
    then exists and is an archive, and the name it is offered under has
    no space. *)
Theorem generate_sends (req : request) (run_id : str) (w w' : world)
  (zip_path : path) (download_name : str) :
  generate req run_id w = (SendFile zip_path download_name, w') ->
  zip_path = child RUNS (run_id ++ lit ".zip")
  /\ (exists ms, lookup (disk w') zip_path = Some (File (Archive ms)))
  /\ ~ In SPACE download_name
  /\ exists logo_file product_file,
       file_logo req = Some logo_file
       /\ file_product req = Some product_file
       /\ filename logo_file <> [] /\ filename product_file <> []
       /\ allowed (filename logo_file) = true
       /\ allowed (filename product_file) = true.
Proof.
  unfold App.generate.
  destruct (file_logo req) as [lf|] eqn:Hl; [|discriminate].
  destruct (file_product req) as [pf|] eqn:Hp; [|discriminate].
  destruct (present (Some lf) && present (Some pf)) eqn:Hpr;
    [|discriminate].
  destruct (allowed (filename lf) && allowed (filename pf)) eqn:Ha;
    [|discriminate].
  cbn [negb].
  match goal with
  | |- (match ?body w with Ok _ => _ | Raise _ => _ end) = _ -> _ =>
      destruct (body w) as [[r w1]|e] eqn:Eb; [|discriminate]
  end.
  intros E. injection E as -> ->.
  assert (Hreq : exists logo_file product_file,
             Some lf = Some logo_file /\ Some pf = Some product_file
             /\ filename logo_file <> [] /\ filename product_file <> []
             /\ allowed (filename logo_file) = true
             /\ allowed (filename product_file) = true).
  { exists lf, pf. apply andb_true_iff in Hpr, Ha.
    destruct Hpr as [P1 P2], Ha as [A1 A2].
    destruct lf as [[|x n] dl]; [discriminate P1|].
    destruct pf as [[|y m] dp]; [discriminate P2|].
    repeat split; try assumption; discriminate. }
  revert Eb.
  cbn [and_then on_disk save ret read_disk disk gen written].
  unfold and_then at 1.
  match goal with
  | |- context [match ?m ?w0 with Ok _ => _ | Raise _ => _ end] =>
      destruct (m w0) as [[u w2]|e]; [|discriminate]
  end.
  unfold and_then at 1.
  match goal with
  | |- context [generate_variations _ _ _ _ _ _ _ ?lp ?pp ?kw w2] =>
      destruct (generate_variations randbelow random53 decode save_png
                  save_jpeg render cwd lp pp kw w2) as [[dir w3]|e];
        [|discriminate]
  end.
  unfold and_then at 1.
  match goal with
  | |- context [match ?m w3 with Ok _ => _ | Raise _ => _ end] =>
      destruct (m w3) as [[u' w4]|e]; [|discriminate]
  end.
  unfold and_then at 1. unfold read_disk at 1.
  destruct (create_zip (disk w4) (child RUNS run_id)
              (child RUNS (run_id ++ lit ".zip"))) as [[q d']|e] eqn:Ez;
    [|discriminate].
  cbn [and_then on_disk ret disk gen written].
  intros E. injection E as <- <- <-. cbn [disk].
  split; [reflexivity|]. split; [|split; [|exact Hreq]].
  - unfold create_zip in Ez.
    destruct (lookup (write (disk w4) (child RUNS (run_id ++ lit ".zip"))
                        (File (Archive []))) (child RUNS run_id))
      as [[cc|]|]; try discriminate.
    injection Ez as _ <-.
    destruct (@zip_loop_names
                (write (disk w4) (child RUNS (run_id ++ lit ".zip"))
                   (File (Archive [])))
                (child RUNS (run_id ++ lit ".zip"))
                (iterdir (write (disk w4)
                            (child RUNS (run_id ++ lit ".zip"))
                            (File (Archive []))) (child RUNS run_id)))
      with (acc := write (disk w4) (child RUNS (run_id ++ lit ".zip"))
                     (File (Archive []))) (ms := @nil (str * option content))
      as (ms & H1 & _).
    + eexists. rewrite lookup_write. now rewrite path_eqb_refl.
    + rewrite lookup_write. now rewrite path_eqb_refl.
    + reflexivity.
    + now exists ms.
  - unfold spaces_to_underscores. rewrite in_map_iff. intros (x & E & _).
    unfold char_eqb in E. destruct (N.eqb_spec x SPACE) as [Hx | Hx].
    + discriminate E.
    + congruence.
Qed.

End Generate.

(** *** On the stand-ins *)

Lemma generate_rejects_witness :
  DemoRun.serve DemoRun.req_without_logo
  = (Redirect (lit "Please upload both logo and product images."),
     DemoRun.start)
  /\ DemoRun.serve DemoRun.req_notes
     = (Redirect (lit "Allowed file types: png, jpg, jpeg"), DemoRun.start).
Proof.
  split.
  - apply (proj1 (@generate_rejects nat Demo.randbelow Demo.random53
                    Demo.decode Demo.save_png Demo.save_jpeg Demo.render
                    Demo.cwd DemoRun.twelve_captions Demo.repr
                    DemoRun.secure_filename DemoRun.environ DemoRun.BASE_DIR
                    DemoRun.image_step DemoRun.req_without_logo (lit "r1")
                    DemoRun.start)).
    reflexivity.
  - apply (proj2 (@generate_rejects nat Demo.randbelow Demo.random53
                    Demo.decode Demo.save_png Demo.save_jpeg Demo.render
                    Demo.cwd DemoRun.twelve_captions Demo.repr
                    DemoRun.secure_filename DemoRun.environ DemoRun.BASE_DIR
                    DemoRun.image_step DemoRun.req_notes (lit "r1")
                    DemoRun.start)
             {| filename := lit "notes.txt"; data := [Byte.x01] |}
             {| filename := lit "product.png"; data := [Byte.x02] |});
      reflexivity.
Defined.




Lemma generate_sends_witness :
  [lit "app"; lit "runs"; lit "r1.zip"]
  = child (RUNS DemoRun.BASE_DIR) (lit "r1" ++ lit ".zip")
  /\ ~ In SPACE (lit "Acme_Boots_creatives.zip").
Proof.
  assert (E : generate Demo.randbelow Demo.random53 Demo.decode
                Demo.save_png Demo.save_jpeg Demo.render Demo.cwd
                DemoRun.twelve_captions Demo.repr DemoRun.secure_filename
                DemoRun.environ DemoRun.BASE_DIR DemoRun.image_step
                DemoRun.req (lit "r1") DemoRun.start
              = (SendFile [lit "app"; lit "runs"; lit "r1.zip"]
                   (lit "Acme_Boots_creatives.zip"),
                 snd (DemoRun.serve DemoRun.req)))
    by (vm_compute; reflexivity).
  pose proof (@generate_sends nat Demo.randbelow Demo.random53 Demo.decode
                Demo.save_png Demo.save_jpeg Demo.render Demo.cwd
                DemoRun.twelve_captions Demo.repr DemoRun.secure_filename
                DemoRun.environ DemoRun.BASE_DIR DemoRun.image_step
                DemoRun.req (lit "r1") DemoRun.start
                (snd (DemoRun.serve DemoRun.req))
                [lit "app"; lit "runs"; lit "r1.zip"]
                (lit "Acme_Boots_creatives.zip") E) as H.
  destruct H as (Hz & _ & Hs & _).
  split; [exact Hz | exact Hs].
Defined.

End AppMore.

(** * The image adapter *)

Module ImageFacts.
Import ImageAdapter NameFacts FSFacts UtilsMore.

Lemma numbered_inj (dir : path) (pre suf : str) (i j : Z) :
  (0 <= i)%Z -> (0 <= j)%Z ->
  child dir (pre ++ format_02d (i + 1) ++ suf)
  = child dir (pre ++ format_02d (j + 1) ++ suf) ->
  i = j.
Proof.
  intros Hi Hj H. apply child_inj, app_inv_head, app_inv_tail in H.
  apply format_02d_inj in H; lia.
Qed.

Lemma numbered_NoDup (dir : path) (pre suf : str) (count : Z) :
  NoDup (map (fun i => child dir (pre ++ format_02d (i + 1) ++ suf))
           (range count)).
Proof.
  pose proof (range_NoDup count) as Hnd.
  assert (Hb : forall i, In i (range count) -> (0 <= i)%Z)
    by (intros i Hi; apply range_bounds in Hi; lia).
  induction (range count) as [|i l IH]; [constructor|].
  inversion Hnd as [|? ? Hni Hnd']; subst. simpl. constructor.
  - rewrite in_map_iff. intros [j [Hj Hin]].
    apply numbered_inj in Hj; [subst; contradiction | | ];
      apply Hb; simpl; auto.
  - apply IH; [assumption|]. intros j Hj. apply Hb. now right.
Qed.

(** The loop that draws and saves, when every drawing succeeds. *)
Lemma draw_each_ok (png : Z -> result (list Byte.byte)) (name : Z -> str)
  (out_dir : path) (data : Z -> list Byte.byte) (xs : list Z) :
  (forall i, In i xs -> png i = Ok (data i)) ->
  forall (saved : list path) (d : fs),
    draw_each png name out_dir xs saved d
    = (inl (saved ++ map (fun i => child out_dir (name i)) xs),
       apply_writes d
         (map (fun i => (child out_dir (name i), Binary (data i))) xs)).
Proof.
  induction xs as [|i xs IH]; intros Hok saved d.
  - simpl. now rewrite app_nil_r.
  - cbn [draw_each]. unfold and_then at 1.
    rewrite (Hok i (or_introl eq_refl)). cbn [lift ret].
    unfold and_then at 1. cbn [write_bytes].
    rewrite IH by (intros j Hj; apply Hok; now right).
    cbn [map apply_writes fold_left fst snd]. now rewrite <- app_assoc.
Qed.

Section Adapter.

Variable GENAI_AVAILABLE : bool.
Variable has_generate_image : bool.
Variable has_images_generate : bool.
Variable generate_image : str -> str -> str -> Z -> result pyval.
Variable images_generate : str -> str -> str -> Z -> result pyval.
Variable generate_text : str -> str -> Z -> result pyval.
Variable b64decode : pyval -> result (list Byte.byte).
Variable placeholder_png : Z -> str -> result (list Byte.byte).
Variable composite_png : Z -> Z -> str -> result (list Byte.byte).

Local Abbreviation _local_placeholders :=
  (_local_placeholders placeholder_png).
Local Abbreviation generate_images :=
  (generate_images GENAI_AVAILABLE has_generate_image has_images_generate
     generate_image images_generate generate_text b64decode placeholder_png).
Local Abbreviation ask_sdk :=
  (ask_sdk has_generate_image has_images_generate generate_image
     images_generate generate_text b64decode placeholder_png).
Local Abbreviation save_items := (save_items b64decode).

(** The text on a placeholder. *)
Local Abbreviation placeholder_text prompt :=
  (lit "[Gemini Placeholder]" ++ [LF] ++ firstn 80 prompt).

(** The placeholders, when the image can be drawn. *)
Lemma placeholders_ok (prompt : str) (count size : Z)
  (out_dir : path) (d : fs) (bytes : list Byte.byte) :
  placeholder_png size (placeholder_text prompt) = Ok bytes ->
  let saved := map (fun i => child out_dir (placeholder_name i))
                 (range count) in
  _local_placeholders prompt count size out_dir d
  = (inl saved,
     apply_writes (mkdir_parents d out_dir)
       (map (fun p => (p, Binary bytes)) saved))
  /\ NoDup saved.
Proof.
  intros Hpng saved. split; [|apply numbered_NoDup].
  unfold ImageAdapter._local_placeholders, and_then at 1, mkdir.
  rewrite (@draw_each_ok _ placeholder_name out_dir (fun _ => bytes))
    by (intros i _; exact Hpng).
  cbn [app]. unfold saved. now rewrite map_map.
Qed.

(** X24.  The placeholders.  When the placeholder image can be drawn,
    [_local_placeholders] makes the directory and returns [count] paths,
    [gemini_placeholder_01.png] onwards, all different; each is then a
    file with the bytes of the placeholder, and no other file changes.
    For [count <= 0] the list is empty. *)
Theorem placeholders_written (prompt : str) (count size : Z)
  (out_dir : path) (d : fs) (bytes : list Byte.byte) :
  placeholder_png size (placeholder_text prompt) = Ok bytes ->
  let saved := map (fun i => child out_dir (placeholder_name i))
                 (range count) in
  exists d',
    _local_placeholders prompt count size out_dir d = (inl saved, d')
    /\ length saved = Z.to_nat count
    /\ NoDup saved
    /\ ((count <= 0)%Z -> saved = [])
    /\ (forall p, In p saved -> lookup d' p = Some (File (Binary bytes)))
    /\ (forall q, ~ In q saved ->
          lookup d' q = lookup (mkdir_parents d out_dir) q).
Proof.
  intros Hpng saved.
  destruct (@placeholders_ok prompt count size out_dir d bytes Hpng)
    as [E Hnd].
  fold saved in E, Hnd. eexists. split; [exact E|].
  assert (Hlen : length saved = Z.to_nat count)
    by (unfold saved; now rewrite length_map, range_length).
  split; [exact Hlen|]. split; [exact Hnd|].
  assert (Hkeys : map fst (map (fun p => (p, Binary bytes)) saved) = saved)
    by (rewrite map_map; apply map_id).
  split; [|split].
  - intros Hc. destruct saved; [reflexivity | simpl in Hlen; lia].
  - intros p Hp. apply lookup_apply_writes.
    + now rewrite Hkeys.
    + apply in_map_iff. now exists p.
  - intros q Hq. apply lookup_apply_writes_other. now rewrite Hkeys.
Qed.

(** X25.  The placeholders can fail: when the placeholder image cannot
    be drawn (Pillow refuses a negative size) and at least one is asked
    for, [_local_placeholders] raises with the directory made and no
    file written, and so does [generate_images] when the SDK or the key
    is missing: nothing catches it. *)
Theorem placeholders_fail (self : GeminiImageAdapter) (prompt : str)
  (count size : Z) (out_dir : path) (d : fs) (e : exn) :
  (1 <= count)%Z ->
  placeholder_png size (placeholder_text prompt) = Raise e ->
  _local_placeholders prompt count size out_dir d
  = (inr (Raised e), mkdir_parents d out_dir)
  /\ (GENAI_AVAILABLE = false \/ str_truthy (api_key self) = false ->
      generate_images self prompt count size out_dir d
      = (inr (Raised e), mkdir_parents (mkdir_parents d out_dir) out_dir)).
Proof.
  intros Hc Hpng.
  assert (Hfail : forall d0,
             _local_placeholders prompt count size out_dir d0
             = (inr (Raised e), mkdir_parents d0 out_dir)).
  { intros d0. unfold ImageAdapter._local_placeholders, and_then at 1, mkdir.
    unfold range. destruct (Z.to_nat count) as [|k] eqn:E; [lia|].
    cbn [seq map draw_each]. unfold and_then at 1. now rewrite Hpng. }
  split; [apply Hfail|].
  intros Hno. unfold ImageAdapter.generate_images, and_then at 1, mkdir.
  assert (Hb : negb GENAI_AVAILABLE || negb (str_truthy (api_key self))
               = true).
  { destruct Hno as [-> | ->]; [reflexivity | apply orb_true_r]. }
  rewrite Hb. apply Hfail.
Qed.

(** The files that the loop over the answer has saved are there. *)
Lemma save_items_inv (payload : pyval -> pyval) (out_dir : path)
  (items : list pyval) :
  forall (i : Z) (saved : list path) (d : fs),
    (0 <= i)%Z ->
    (forall p, In p saved ->
       (exists k, (0 <= k)%Z /\ p = child out_dir (gemini_name k))
       /\ exists data, lookup d p = Some (File (Binary data))) ->
    forall saved' d',
      save_items payload out_dir i items saved d = (inl saved', d') ->
      forall p, In p saved' ->
        (exists k, (0 <= k)%Z /\ p = child out_dir (gemini_name k))
        /\ exists data, lookup d' p = Some (File (Binary data)).
Proof.
  induction items as [|it rest IH]; intros i saved d Hi Hinv saved' d' E.
  - cbn in E. injection E as <- <-. exact Hinv.
  - cbn [ImageAdapter.save_items] in E.
    destruct (truthy (payload it)); cbn [negb] in E.
    + unfold and_then at 1 in E.
      destruct (b64decode (payload it)) as [bytes|e]; cbn [lift] in E;
        [|discriminate E].
      cbn [ret] in E. unfold and_then at 1 in E. cbn [write_bytes] in E.
      eapply (IH (i + 1)%Z); [lia | | exact E].
      intros p Hp. apply in_app_or in Hp. destruct Hp as [Hp | [<- | []]].
      * destruct (Hinv p Hp) as [Hk [data Hd]]. split; [exact Hk|].
        rewrite lookup_write.
        destruct (path_eqb (child out_dir (gemini_name i)) p);
          [now exists bytes | now exists data].
      * split; [now exists i|]. exists bytes.
        rewrite lookup_write. now rewrite path_eqb_refl.
    + apply (IH (i + 1)%Z saved d ltac:(lia) Hinv saved' d' E).
Qed.

(** X26.  The adapter never comes back empty-handed because of the SDK:
    whatever the SDK has, answers or raises, when the placeholder image
    can be drawn [generate_images] returns a list of files that are all
    on disk in the output directory: either images decoded from the
    answer, named [gemini_img_NN.png], and then at least one, or exactly
    the [count] placeholders. *)
Theorem generate_images_always (self : GeminiImageAdapter) (prompt : str)
  (count size : Z) (out_dir : path) (d : fs) (bytes : list Byte.byte) :
  placeholder_png size (placeholder_text prompt) = Ok bytes ->
  exists saved d',
    generate_images self prompt count size out_dir d = (inl saved, d')
    /\ (forall p, In p saved ->
          parent p = out_dir
          /\ exists data, lookup d' p = Some (File (Binary data)))
    /\ (saved = map (fun i => child out_dir (placeholder_name i))
                  (range count)
        \/ (saved <> []
            /\ forall p, In p saved ->
                 exists k, (0 <= k)%Z /\ p = child out_dir (gemini_name k))).
Proof.
  intros Hpng.
  assert (Hph : forall d0, exists d',
             _local_placeholders prompt count size out_dir d0
             = (inl (map (fun i => child out_dir (placeholder_name i))
                       (range count)), d')
             /\ forall p,
                  In p (map (fun i => child out_dir (placeholder_name i))
                          (range count)) ->
                  parent p = out_dir
                  /\ exists data, lookup d' p = Some (File (Binary data))).
  { intros d0.
    destruct (@placeholders_ok prompt count size out_dir d0 bytes Hpng)
      as [E Hnd].
    eexists. split; [exact E|]. intros p Hp. split.
    - apply in_map_iff in Hp. destruct Hp as (i & <- & _).
      apply parent_child.
    - exists bytes. apply lookup_apply_writes.
      + rewrite map_map. cbn [fst]. now rewrite map_id.
      + apply in_map_iff. now exists p. }
  assert (Hfall : forall d0, exists saved d',
             _local_placeholders prompt count size out_dir d0 = (inl saved, d')
             /\ (forall p, In p saved ->
                   parent p = out_dir
                   /\ exists data, lookup d' p = Some (File (Binary data)))
             /\ (saved = map (fun i => child out_dir (placeholder_name i))
                           (range count)
                 \/ (saved <> []
                     /\ forall p, In p saved ->
                          exists k, (0 <= k)%Z
                                    /\ p = child out_dir (gemini_name k)))).
  { intros d0. destruct (Hph d0) as (d' & E & Hin).
    eexists. exists d'. split; [exact E|]. split; [exact Hin | now left]. }
  (* after the loop over the items of an answer *)
  assert (Hitems : forall payload items d0, exists saved d',
             and_then (save_items payload out_dir 0 items [])
               (fun saved => match saved with
                             | [] => _local_placeholders prompt count size
                                       out_dir
                             | _ => ret saved
                             end) d0 = (inl saved, d')
             /\ (forall p, In p saved ->
                   parent p = out_dir
                   /\ exists data, lookup d' p = Some (File (Binary data)))
             /\ (saved = map (fun i => child out_dir (placeholder_name i))
                           (range count)
                 \/ (saved <> []
                     /\ forall p, In p saved ->
                          exists k, (0 <= k)%Z
                                    /\ p = child out_dir (gemini_name k)))
             \/ exists e d', 
                  and_then (save_items payload out_dir 0 items [])
                    (fun saved => match saved with
                                  | [] => _local_placeholders prompt count
                                            size out_dir
                                  | _ => ret saved
                                  end) d0 = (inr e, d')).
  { intros payload items d0. unfold and_then.
    destruct (save_items payload out_dir 0 items [] d0) as [[saved|e] d1]
      eqn:E.
    - destruct saved as [|p0 saved].
      + destruct (Hfall d1) as (s & d' & E' & H1 & H2).
        exists s, d'. left. auto.
      + exists (p0 :: saved), d1. left. split; [reflexivity|].
        pose proof (@save_items_inv payload out_dir items 0 [] d0
                      ltac:(lia) ltac:(intros ? []) _ _ E) as Hinv.
        split.
        * intros p Hp. destruct (Hinv p Hp) as [(k & _ & ->) Hd].
          split; [apply parent_child | exact Hd].
        * right. split; [discriminate|].
          intros p Hp. now destruct (Hinv p Hp) as [Hk _].
    - exists [], d1. right. now exists e, d1. }
  unfold ImageAdapter.generate_images, and_then at 1, mkdir.
  destruct (negb GENAI_AVAILABLE || negb (str_truthy (api_key self)));
    [apply Hfall|].
  unfold try_except.
  destruct (ask_sdk prompt count size out_dir (mkdir_parents d out_dir))
    as [[saved|e] d1] eqn:E; [|apply Hfall].
  exists saved, d1. split; [reflexivity|].
  revert E. unfold ImageAdapter.ask_sdk.
  destruct has_generate_image.
  - unfold and_then at 1.
    destruct (generate_image _ _ _ _) as [resp|e]; cbn [lift ret fail];
      [|discriminate].
    unfold and_then at 1.
    match goal with
    | |- context [match ?m (mkdir_parents d out_dir) with _ => _ end] =>
        destruct (m (mkdir_parents d out_dir)) as [[items|e] d2];
          [|discriminate]
    end.
    intros E.
    destruct (Hitems payload_generate_image items d2)
      as (s & d' & [(E' & H1 & H2) | (e & d3 & E')]);
      rewrite E' in E; [|discriminate E].
    injection E as <- <-. split; assumption.
  - destruct has_images_generate.
    + unfold and_then at 1.
      destruct (images_generate _ _ _ _) as [resp|e]; cbn [lift ret fail];
        [|discriminate].
      unfold and_then at 1.
      match goal with
      | |- context [match ?m (mkdir_parents d out_dir) with _ => _ end] =>
          destruct (m (mkdir_parents d out_dir)) as [[items|e] d2];
            [|discriminate]
      end.
      intros E.
      destruct (Hitems payload_images_generate items d2)
        as (s & d' & [(E' & H1 & H2) | (e & d3 & E')]);
        rewrite E' in E; [|discriminate E].
      injection E as <- <-. split; assumption.
    + unfold and_then at 1.
      destruct (generate_text _ _ _) as [resp|e]; cbn [lift ret fail];
        [|discriminate].
      intros E. destruct (Hfall (mkdir_parents d out_dir))
        as (s & d' & E' & H1 & H2).
      rewrite E' in E. injection E as <- <-. split; assumption.
Qed.

(** The items that carry data, with the number of their place. *)
Local Abbreviation kept payload start items :=
  (filter (fun p : Z * pyval => truthy (payload (snd p)))
     (enumerate start items)).

Lemma enumerate_bounds (A : Type) (items : list A) :
  forall (start : Z) (p : Z * A),
    In p (enumerate start items) -> (start <= fst p)%Z.
Proof.
  induction items as [|it rest IH]; intros start p Hp; [destruct Hp|].
  destruct Hp as [<- | Hp]; [simpl; lia|].
  apply IH in Hp. lia.
Qed.

Lemma enumerate_NoDup (A : Type) (items : list A) :
  forall start : Z, NoDup (map fst (enumerate start items)).
Proof.
  induction items as [|it rest IH]; intros start; [constructor|].
  simpl. constructor; [|apply IH].
  rewrite in_map_iff. intros (p & E & Hp).
  apply enumerate_bounds in Hp. lia.
Qed.

(** The loop over the answer, as long as every piece of data decodes:
    one file per item that carries data, under the number of its place. *)
Lemma save_items_ok (payload : pyval -> pyval) (out_dir : path)
  (decoded : pyval -> list Byte.byte) (items : list pyval) :
  (forall it, In it items -> truthy (payload it) = true ->
     b64decode (payload it) = Ok (decoded it)) ->
  forall (i : Z) (saved : list path) (d : fs),
    save_items payload out_dir i items saved d
    = (inl (saved ++ map (fun p => child out_dir (gemini_name (fst p)))
                       (kept payload i items)),
       apply_writes d
         (map (fun p => (child out_dir (gemini_name (fst p)),
                         Binary (decoded (snd p))))
            (kept payload i items))).
Proof.
  induction items as [|it rest IH]; intros Hok i saved d.
  - simpl. now rewrite app_nil_r.
  - cbn [ImageAdapter.save_items enumerate filter snd].
    destruct (truthy (payload it)) eqn:T; cbn [negb].
    + unfold and_then at 1.
      rewrite (Hok it (or_introl eq_refl) T). cbn [lift ret].
      unfold and_then at 1. cbn [write_bytes].
      rewrite IH by (intros j Hj; apply Hok; now right).
      cbn [map apply_writes fold_left fst snd]. now rewrite <- app_assoc.
    + apply IH. intros j Hj. apply Hok. now right.
Qed.

Lemma kept_paths_NoDup (payload : pyval -> pyval) (out_dir : path)
  (decoded : pyval -> list Byte.byte) (items : list pyval) :
  NoDup (map fst
           (map (fun p : Z * pyval =>
                   (child out_dir (gemini_name (fst p)),
                    Binary (decoded (snd p))))
              (kept payload 0 items))).
Proof.
  rewrite map_map. cbn [fst].
  assert (Hnd : NoDup (map fst (kept payload 0 items))).
  { pose proof (enumerate_NoDup items 0) as H.
    induction (enumerate 0 items) as [|p l IH]; [constructor|].
    simpl in H. inversion H as [|? ? Hn Hl]; subst.
    cbn [filter]. destruct (truthy (payload (snd p))); [|now apply IH].
    simpl. constructor; [|now apply IH].
    intros Hin. apply Hn. apply in_map_iff in Hin.
    destruct Hin as (q & E & Hq). apply filter_In in Hq.
    apply in_map_iff. exists q. tauto. }
  assert (Hb : forall p, In p (kept payload 0 items) -> (0 <= fst p)%Z).
  { intros p Hp. apply filter_In in Hp. destruct Hp as [Hp _].
    now apply enumerate_bounds in Hp. }
  induction (kept payload 0 items) as [|p l IH]; [constructor|].
  simpl in Hnd. inversion Hnd as [|? ? Hn Hl]; subst.
  simpl. constructor.
  - rewrite in_map_iff. intros (q & E & Hq).
    apply numbered_inj in E; [| apply Hb; now right | apply Hb; now left].
    apply Hn. rewrite <- E. now apply in_map.
  - apply IH; [exact Hl|]. intros q Hq. apply Hb. now right.
Qed.

(** X27.  Images are numbered by their place in the answer, not by
    count: when the SDK has [generate_image] and answers with a list,
    and the data of every item that carries some decodes, the files
    returned are [gemini_img_NN.png] with [NN] one more than the index
    of the item, so an item without data leaves a gap; each file holds
    the decoded bytes of its item, and [count] plays no part. *)
Theorem gemini_numbering (self : GeminiImageAdapter) (prompt : str)
  (count size : Z) (out_dir : path) (d : fs) (items : list pyval)
  (decoded : pyval -> list Byte.byte) :
  GENAI_AVAILABLE = true ->
  str_truthy (api_key self) = true ->
  has_generate_image = true ->
  generate_image (lit "gpt-image-1") prompt (size_text size) count
  = Ok (PList items) ->
  (forall it, In it items ->
     truthy (payload_generate_image it) = true ->
     b64decode (payload_generate_image it) = Ok (decoded it)) ->
  kept payload_generate_image 0 items <> [] ->
  exists d',
    generate_images self prompt count size out_dir d
    = (inl (map (fun p => child out_dir (gemini_name (fst p)))
              (kept payload_generate_image 0 items)), d')
    /\ forall p, In p (kept payload_generate_image 0 items) ->
         lookup d' (child out_dir (gemini_name (fst p)))
         = Some (File (Binary (decoded (snd p)))).
Proof.
  intros Hsdk Hkey Hshape Hresp Hdec Hsome.
  unfold ImageAdapter.generate_images, and_then at 1, mkdir.
  rewrite Hsdk, Hkey. cbn [negb orb].
  unfold try_except, ImageAdapter.ask_sdk. rewrite Hshape.
  unfold and_then at 1. rewrite Hresp. cbn [lift ret].
  unfold and_then at 1. cbn [ret]. unfold and_then at 1.
  rewrite (@save_items_ok payload_generate_image out_dir decoded items Hdec).
  cbn [app].
  destruct (map (fun p => child out_dir (gemini_name (fst p)))
              (kept payload_generate_image 0 items)) as [|p0 l] eqn:E.
  - apply map_eq_nil in E. contradiction.
  - cbn [ret]. eexists. split; [reflexivity|].
    intros p Hp. apply lookup_apply_writes.
    + apply kept_paths_NoDup.
    + apply in_map_iff. now exists p.
Qed.

(** X28.  What was saved before a failure stays: when an item of the
    answer carries data that does not decode, [generate_images] returns
    the placeholders only, but the images of the items before it are
    files of the output directory all the same. *)
Theorem decode_failure_leaves_files (self : GeminiImageAdapter)
  (prompt : str) (count size : Z) (out_dir : path) (d : fs)
  (before after : list pyval) (bad : pyval)
  (decoded : pyval -> list Byte.byte) (bytes : list Byte.byte) (e : exn) :
  GENAI_AVAILABLE = true ->
  str_truthy (api_key self) = true ->
  has_generate_image = true ->
  generate_image (lit "gpt-image-1") prompt (size_text size) count
  = Ok (PList (before ++ bad :: after)) ->
  (forall it, In it before ->
     truthy (payload_generate_image it) = true ->
     b64decode (payload_generate_image it) = Ok (decoded it)) ->
  truthy (payload_generate_image bad) = true ->
  b64decode (payload_generate_image bad) = Raise e ->
  placeholder_png size (placeholder_text prompt) = Ok bytes ->
  exists d',
    generate_images self prompt count size out_dir d
    = (inl (map (fun i => child out_dir (placeholder_name i)) (range count)),
       d')
    /\ forall p, In p (kept payload_generate_image 0 before) ->
         lookup d' (child out_dir (gemini_name (fst p)))
         = Some (File (Binary (decoded (snd p)))).
Proof.
  intros Hsdk Hkey Hshape Hresp Hdec Hbad Hraise Hpng.
  assert (Hloop : forall items i saved d0,
             (forall it, In it items ->
                truthy (payload_generate_image it) = true ->
                b64decode (payload_generate_image it) = Ok (decoded it)) ->
             save_items payload_generate_image out_dir i
               (items ++ bad :: after) saved d0
             = (inr (Raised e),
                apply_writes d0
                  (map (fun p => (child out_dir (gemini_name (fst p)),
                                  Binary (decoded (snd p))))
                     (kept payload_generate_image i items)))).
  { induction items as [|it rest IH]; intros i saved d0 Hok.
    - cbn [app ImageAdapter.save_items]. rewrite Hbad. cbn [negb].
      unfold and_then at 1. now rewrite Hraise.
    - cbn [app ImageAdapter.save_items enumerate filter snd].
      destruct (truthy (payload_generate_image it)) eqn:T; cbn [negb].
      + unfold and_then at 1.
        rewrite (Hok it (or_introl eq_refl) T). cbn [lift ret].
        unfold and_then at 1. cbn [write_bytes].
        rewrite IH by (intros j Hj; apply Hok; now right).
        reflexivity.
      + apply IH. intros j Hj. apply Hok. now right. }
  unfold ImageAdapter.generate_images, and_then at 1, mkdir.
  rewrite Hsdk, Hkey. cbn [negb orb].
  unfold try_except, ImageAdapter.ask_sdk. rewrite Hshape.
  unfold and_then at 1. rewrite Hresp. cbn [lift ret].
  unfold and_then at 1. cbn [ret]. unfold and_then at 1.
  rewrite (Hloop before 0%Z [] _ Hdec).
  match goal with
  | |- context [_local_placeholders prompt count size out_dir ?d1] =>
      destruct (@placeholders_ok prompt count size out_dir d1 bytes Hpng)
        as [E _]
  end.
  eexists. split; [exact E|].
  intros p Hp. rewrite lookup_apply_writes_other.
  - apply lookup_mkdir_parents. apply lookup_apply_writes.
    + apply kept_paths_NoDup.
    + apply in_map_iff. now exists p.
  - rewrite map_map. cbn [fst]. rewrite map_id, in_map_iff.
    intros (i & Ei & _). apply child_inj in Ei. discriminate Ei.
Qed.

(** X29.  The local composites.  When every composite can be drawn,
    [LocalCompositeAdapter.generate_images] returns [count] paths,
    [local_composite_01.png] onwards, all different, each a file with
    its composite.  The grey of composite [i] is a valid colour, between
    200 and 249, and repeats every ten; the label is the prompt when
    that has at most 40 characters, and otherwise its first 40 followed
    by three dots. *)
Theorem local_composites_written (prompt : str) (count size : Z)
  (out_dir : path) (d : fs) (data : Z -> list Byte.byte) :
  (forall i, In i (range count) ->
     composite_png size (grey_level i) (label prompt) = Ok (data i)) ->
  let saved := map (fun i => child out_dir (composite_name i))
                 (range count) in
  (exists d',
     local_generate_images composite_png prompt count size out_dir d
     = (inl saved, d')
     /\ length saved = Z.to_nat count
     /\ NoDup saved
     /\ forall i, In i (range count) ->
          lookup d' (child out_dir (composite_name i))
          = Some (File (Binary (data i))))
  /\ (forall i, (200 <= grey_level i <= 249)%Z
                /\ grey_level (i + 10) = grey_level i)
  /\ (length prompt <= 40 -> label prompt = prompt)
  /\ (40 < length prompt -> label prompt = firstn 40 prompt ++ lit "...").
Proof.
  intros Hpng saved.
  assert (Hnd : NoDup saved) by apply numbered_NoDup.
  split; [|split; [|split]].
  - unfold local_generate_images, and_then at 1, mkdir.
    rewrite (@draw_each_ok _ composite_name out_dir data) by exact Hpng.
    cbn [app]. fold saved. eexists. split; [reflexivity|].
    split; [unfold saved; now rewrite length_map, range_length|].
    split; [exact Hnd|].
    intros i Hi. apply lookup_apply_writes.
    + rewrite map_map. exact Hnd.
    + apply in_map_iff. now exists i.
  - intros i. unfold grey_level. split.
    + pose proof (Z.mod_pos_bound (i * 5) 50 ltac:(lia)). lia.
    + f_equal. replace ((i + 10) * 5)%Z with (i * 5 + 1 * 50)%Z by lia.
      apply Z.mod_add. lia.
  - intros Hlen. unfold label.
    destruct (Nat.ltb_spec 40 (length prompt)) as [H | H]; [lia|].
    rewrite app_nil_r. apply firstn_all2. exact Hlen.
  - intros Hlen. unfold label.
    destruct (Nat.ltb_spec 40 (length prompt)) as [H | H]; [reflexivity | lia].
Qed.

(** *** The adapter stays in its directory *)



















End Adapter.

(** *** On the stand-ins *)

Lemma placeholders_written_witness :
  exists d',
    _local_placeholders DemoImages.placeholder_png (lit "Boots") 2 1024
      DemoImages.out_dir DemoImages.disk0
    = (inl [ [lit "run"; lit "gemini_images"; lit "gemini_placeholder_01.png"];
             [lit "run"; lit "gemini_images"; lit "gemini_placeholder_02.png"] ],
       d').
Proof.
  destruct (@placeholders_written DemoImages.placeholder_png (lit "Boots")
              2 1024 DemoImages.out_dir DemoImages.disk0 [Byte.x50] eq_refl)
    as (d' & E & _).
  exists d'. exact E.
Defined.

Lemma placeholders_fail_witness :
  _local_placeholders (fun _ _ => Raise (RuntimeError (lit "bad size")))
    (lit "Boots") 2 (-1) DemoImages.out_dir DemoImages.disk0
  = (inr (Raised (RuntimeError (lit "bad size"))),
     mkdir_parents DemoImages.disk0 DemoImages.out_dir).
Proof.
  apply (proj1 (@placeholders_fail false true false
                  DemoImages.generate_image DemoImages.generate_image
                  DemoImages.generate_text DemoImages.b64decode
                  (fun _ _ => Raise (RuntimeError (lit "bad size")))
                  DemoImages.with_key (lit "Boots") 2 (-1)
                  DemoImages.out_dir DemoImages.disk0
                  (RuntimeError (lit "bad size")) ltac:(lia) eq_refl)).
Defined.

Lemma generate_images_always_witness :
  exists saved d',
    generate_images true true false DemoImages.sdk_down
      DemoImages.generate_image DemoImages.generate_text
      DemoImages.b64decode DemoImages.placeholder_png DemoImages.with_key
      (lit "Boots") 2 1024 DemoImages.out_dir DemoImages.disk0
    = (inl saved, d')
    /\ forall p, In p saved -> parent p = DemoImages.out_dir.
Proof.
  destruct (@generate_images_always true true false DemoImages.sdk_down
              DemoImages.generate_image DemoImages.generate_text
              DemoImages.b64decode DemoImages.placeholder_png
              DemoImages.with_key (lit "Boots") 2 1024 DemoImages.out_dir
              DemoImages.disk0 [Byte.x50] eq_refl)
    as (saved & d' & E & H & _).
  exists saved, d'. split; [exact E|]. intros p Hp. now apply H.
Defined.

Lemma gemini_numbering_witness :
  exists d',
    generate_images true true false DemoImages.generate_image
      DemoImages.generate_image DemoImages.generate_text
      DemoImages.b64decode DemoImages.placeholder_png DemoImages.with_key
      (lit "Boots") 6 1024 DemoImages.out_dir DemoImages.disk0
    = (inl [ [lit "run"; lit "gemini_images"; lit "gemini_img_01.png"];
             [lit "run"; lit "gemini_images"; lit "gemini_img_03.png"] ],
       d').
Proof.
  destruct (@gemini_numbering true true false DemoImages.generate_image
              DemoImages.generate_image DemoImages.generate_text
              DemoImages.b64decode DemoImages.placeholder_png
              DemoImages.with_key (lit "Boots") 6 1024 DemoImages.out_dir
              DemoImages.disk0 DemoImages.items DemoImages.decoded)
    as (d' & E & _); try reflexivity.
  - intros it [<- | [<- | [<- | []]]] T;
      [reflexivity | discriminate T | reflexivity].
  - discriminate.
  - exists d'. exact E.
Defined.

Lemma decode_failure_leaves_files_witness :
  exists d',
    generate_images true true false DemoImages.generate_broken
      DemoImages.generate_image DemoImages.generate_text
      DemoImages.b64decode DemoImages.placeholder_png DemoImages.with_key
      (lit "Boots") 1 1024 DemoImages.out_dir DemoImages.disk0
    = (inl [[lit "run"; lit "gemini_images";
             lit "gemini_placeholder_01.png"]], d')
    /\ lookup d' [lit "run"; lit "gemini_images"; lit "gemini_img_01.png"]
       = Some (File (Binary [Byte.x41])).
Proof.
  destruct (@decode_failure_leaves_files true true false
              DemoImages.generate_broken DemoImages.generate_image
              DemoImages.generate_text DemoImages.b64decode
              DemoImages.placeholder_png DemoImages.with_key (lit "Boots")
              1 1024 DemoImages.out_dir DemoImages.disk0
              [PDict [(lit "b64", PStr (lit "QQ=="))]] []
              (PDict [(lit "b64", PInt 7)]) DemoImages.decoded [Byte.x50]
              (RuntimeError (lit "Incorrect padding")))
    as (d' & E & H); try reflexivity.
  - intros it [<- | []] _. reflexivity.
  - exists d'. split; [exact E|].
    apply (H (0%Z, PDict [(lit "b64", PStr (lit "QQ=="))])). now left.
Defined.

Lemma local_composites_written_witness :
  exists d',
    local_generate_images DemoImages.composite_png (lit "Boots") 2 1024
      DemoImages.out_dir DemoImages.disk0
    = (inl [ [lit "run"; lit "gemini_images"; lit "local_composite_01.png"];
             [lit "run"; lit "gemini_images"; lit "local_composite_02.png"] ],
       d').
Proof.
  destruct (proj1 (@local_composites_written DemoImages.composite_png
                     (lit "Boots") 2 1024 DemoImages.out_dir
                     DemoImages.disk0 (fun _ => [Byte.x43])
                     (fun _ _ => eq_refl)))
    as (d' & E & _).
  exists d'. exact E.
Defined.

End ImageFacts.

(** * The request with the image step on *)

Module AppImagesFacts.
Import CaptionAdapter Compositor App Utils ImageAdapter.
Import NameFacts FSFacts CompositorFacts UtilsFacts UtilsMore AppMore
  ImageFacts.




Section Generate.

Variable rng : Type.
Variable randbelow : Z -> rng -> Z * rng.
Variable random53 : rng -> Z * rng.
Variable decode : list Byte.byte -> option Image.
Variable save_png : Image -> list Byte.byte.
Variable save_jpeg : Z -> Image -> list Byte.byte.
Variable render : Image -> Image -> Z -> str -> str -> cosmetics -> result Image.
Variable cwd : path.
Variable http_post : str -> str -> payload -> result json.
Variable repr : json -> str.
Variable secure_filename : str -> str.
Variable environ : str -> option str.
Variable BASE_DIR : path.

Variable GENAI_AVAILABLE : bool.
Variable has_generate_image : bool.
Variable has_images_generate : bool.
Variable generate_image : str -> str -> str -> Z -> result pyval.
Variable images_generate : str -> str -> str -> Z -> result pyval.
Variable generate_text : str -> str -> Z -> result pyval.
Variable b64decode : pyval -> result (list Byte.byte).
Variable placeholder_png : Z -> str -> result (list Byte.byte).

Hypothesis Hrange : randbelow_in_range randbelow.

Local Abbreviation world := (world rng).
Local Abbreviation image_step :=
  (AppImages.image_step GENAI_AVAILABLE has_generate_image
     has_images_generate generate_image images_generate generate_text
     b64decode placeholder_png environ).
Local Abbreviation generate :=
  (generate randbelow random53 decode save_png save_jpeg render cwd
     http_post repr secure_filename environ BASE_DIR image_step).
Local Abbreviation RUNS := (RUNS BASE_DIR).


End Generate.


End AppImagesFacts.
